(** * Ranked retrieval engine

    A shallow embedding of [backend/src/rag/retriever.py]: the semantic,
    keyword (BM25-named) and hybrid retrievers, the book-scoped service
    facade and its re-ranking pass.

    Conventions of the embedding.
    - Python floats are read as exact rationals ([Q]); score equalities
      that hold only up to the representation of a fraction are stated
      with [==].
    - Text is ASCII: [lower] maps the letters A-Z, [isspace] recognises the
      ASCII characters for which Python's [str.isspace] is true.
    - A result dictionary is a record whose optional keys are [option]
      fields; the metadata dictionary is a [gmap].
    - [await] is sequential composition; the embedding generator and the
      vector store are functions of their arguments. *)

From Stdlib Require Import ZArith QArith Lqa Lia String Ascii List Permutation.
From stdpp Require Import gmap strings list sorting.

(** ** Python string primitives *)

Module PyStr.

Definition lower_ascii (c : ascii) : ascii :=
  let n := nat_of_ascii c in
  if ((65 <=? n) && (n <=? 90))%nat then ascii_of_nat (n + 32) else c.

(** [str.lower()] *)
Fixpoint lower (s : string) : string :=
  match s with
  | EmptyString => EmptyString
  | String c s' => String (lower_ascii c) (lower s')
  end.

(** [str.isspace()] on one character: TAB, LF, VT, FF, CR, FS, GS, RS, US
    and the space. *)
Definition isspace (c : ascii) : bool :=
  let n := nat_of_ascii c in
  (((9 <=? n) && (n <=? 13)) || ((28 <=? n) && (n <=? 32)))%nat.

Definition flush (cur : list ascii) : list string :=
  match cur with
  | [] => []
  | _ => [string_of_list_ascii (rev cur)]
  end.

(** [cur] holds the characters of the word being read, last one first. *)
Fixpoint split_from (cur : list ascii) (s : string) : list string :=
  match s with
  | EmptyString => flush cur
  | String c s' =>
      if isspace c then flush cur ++ split_from [] s'
      else split_from (c :: cur) s'
  end.

(** [str.split()] without arguments: maximal runs of non-whitespace. *)
Definition split (s : string) : list string := split_from [] s.

End PyStr.

(** ** Python list primitives *)

(** [l[:k]] for an integer [k]; a negative [k] counts from the end. *)
Definition slice_to {A : Type} (l : list A) (k : Z) : list A :=
  if (0 <=? k)%Z then take (Z.to_nat k) l
  else take (Z.to_nat (Z.of_nat (length l) + k)) l.

(** [list.sort(key=...)] is stable, also with [reverse=True]: elements
    with equal keys keep their relative order.  The result of a stable
    sort is determined by the keys, so it is given here by insertion. *)
Section StableSort.
Context {A : Type} (key : A → Q).

Fixpoint insert_asc (x : A) (l : list A) : list A :=
  match l with
  | [] => [x]
  | y :: l' =>
      if Qle_bool (key x) (key y) then x :: y :: l'
      else y :: insert_asc x l'
  end.

Fixpoint insert_desc (x : A) (l : list A) : list A :=
  match l with
  | [] => [x]
  | y :: l' =>
      if Qle_bool (key y) (key x) then x :: y :: l'
      else y :: insert_desc x l'
  end.

(** [l.sort(key=key)] *)
Definition sort_asc (l : list A) : list A := foldr insert_asc [] l.

(** [l.sort(key=key, reverse=True)] *)
Definition sort_desc (l : list A) : list A := foldr insert_desc [] l.

(** Descending, resp. ascending, order of the keys. *)
Definition sorted_desc (l : list A) : Prop :=
  StronglySorted (λ x y, key y <= key x)%Q l.

Definition sorted_asc (l : list A) : Prop :=
  StronglySorted (λ x y, key x <= key y)%Q l.
End StableSort.

(** ** Data model *)

Inductive MetaValue :=
| MStr (s : string)
| MInt (n : Z).

#[global] Instance MetaValue_eq_dec : EqDecision MetaValue.
Proof. solve_decision. Defined.

(** What [vector_store.search] returns for one neighbour. *)
Record Hit := mkHit {
  hit_id : string;
  hit_content : string;
  hit_metadata : gmap string MetaValue;
  hit_distance : Q
}.

(** A result dictionary.  The keys ['id'], ['content'] and ['metadata'] are
    always present, the others depend on the stage that built it. *)
Record Candidate := mkCandidate {
  doc_id : string;
  content : string;
  metadata : gmap string MetaValue;
  rank : option nat;
  similarity_score : option Q;
  bm25_score : option Q;
  combined_score : option Q;
  semantic_score : option Q;
  keyword_score : option Q;
  reranked_score : option Q
}.

(** [result['combined_score'] = v] and its siblings. *)
Definition set_combined_score (v : Q) (c : Candidate) : Candidate :=
  mkCandidate (doc_id c) (content c) (metadata c) (rank c)
    (similarity_score c) (bm25_score c) (Some v) (semantic_score c)
    (keyword_score c) (reranked_score c).

Definition set_semantic_score (v : Q) (c : Candidate) : Candidate :=
  mkCandidate (doc_id c) (content c) (metadata c) (rank c)
    (similarity_score c) (bm25_score c) (combined_score c) (Some v)
    (keyword_score c) (reranked_score c).

Definition set_keyword_score (v : Q) (c : Candidate) : Candidate :=
  mkCandidate (doc_id c) (content c) (metadata c) (rank c)
    (similarity_score c) (bm25_score c) (combined_score c) (semantic_score c)
    (Some v) (reranked_score c).

Definition set_reranked_score (v : Q) (c : Candidate) : Candidate :=
  mkCandidate (doc_id c) (content c) (metadata c) (rank c)
    (similarity_score c) (bm25_score c) (combined_score c) (semantic_score c)
    (keyword_score c) (Some v).

(** [set(text.lower().split())] *)
Definition word_set (text : string) : gset string :=
  list_to_set (PyStr.split (PyStr.lower text)).

Definition ratio (n m : nat) : Q :=
  (inject_Z (Z.of_nat n) / inject_Z (Z.of_nat m))%Q.

(** ** Insertion-ordered dictionaries

    [result_scores] is a [dict] keyed by document id; iteration follows
    the order in which keys were first inserted. *)

Fixpoint dict_mem {V : Type} (k : string) (d : list (string * V)) : bool :=
  match d with
  | [] => false
  | (k', _) :: d' => if decide (k = k') then true else dict_mem k d'
  end.

(** [d[k][field] = ...] on a key that is present: the stored value is
    changed in place, the key keeps its position. *)
Fixpoint dict_update {V : Type} (f : V → V) (k : string) (d : list (string * V))
  : list (string * V) :=
  match d with
  | [] => []
  | (k', v) :: d' =>
      if decide (k = k') then (k', f v) :: d' else (k', v) :: dict_update f k d'
  end.

(** [d.get(k)]: the value stored under [k]. *)
Fixpoint dict_get {V : Type} (k : string) (d : list (string * V)) : option V :=
  match d with
  | [] => None
  | (k', v) :: d' => if decide (k = k') then Some v else dict_get k d'
  end.

(** [list(d.keys())] *)
Definition keys {V : Type} (d : list (string * V)) : list string := d.*1.

(** The values of [result_scores]. *)
Module Scores.
Record t := mk {
  document : Candidate;
  semantic_score : Q;
  keyword_score : Q
}.
Definition with_semantic (v : Q) (e : t) : t :=
  mk (document e) v (keyword_score e).
Definition with_keyword (v : Q) (e : t) : t :=
  mk (document e) (semantic_score e) v.
End Scores.

(** ** Outcomes of a call *)

Inductive PyException :=
| ValueError (msg : string)
| TypeError (msg : string).

Inductive Outcome (A : Type) :=
| Return (a : A)
| Raise (e : PyException).
Arguments Return {A} a.
Arguments Raise {A} e.

(** ** Retrieval strategies *)

Section Retrievers.
(** The two collaborators imported by the module. *)
Variable generate_embedding : string → list Q.
Variable search : string → Z → list Hit.

(** *** SemanticRetriever *)

(** One iteration of the formatting loop. *)
Definition semantic_format (formatted_results : list Candidate) (result : Hit)
  : list Candidate :=
  formatted_results ++
    [ {| doc_id := hit_id result;
         content := hit_content result;
         metadata := hit_metadata result;
         rank := Some (length formatted_results + 1)%nat;
         similarity_score := Some (1 - hit_distance result)%Q;
         bm25_score := None; combined_score := None;
         semantic_score := None; keyword_score := None;
         reranked_score := None |} ].

Definition SemanticRetriever_retrieve (query : string) (top_k : Z)
  : list Candidate :=
  match generate_embedding query with
  | [] => []
  | _ :: _ =>
      let results := search query top_k in
      let results := sort_asc hit_distance results in
      fold_left semantic_format results []
  end.

(** *** BM25Retriever *)

Definition bm25_format (query_words : gset string)
    (formatted_results : list Candidate) (result : Hit) : list Candidate :=
  let content_words := word_set (hit_content result) in
  let overlap := size (query_words ∩ content_words) in
  let score :=
    if (0 <? size query_words)%nat then ratio overlap (size query_words)
    else 0%Q in
  formatted_results ++
    [ {| doc_id := hit_id result;
         content := hit_content result;
         metadata := hit_metadata result;
         rank := Some (length formatted_results + 1)%nat;
         similarity_score := None;
         bm25_score := Some score;
         combined_score := None;
         semantic_score := None; keyword_score := None;
         reranked_score := None |} ].

Definition BM25Retriever_retrieve (query : string) (top_k : Z)
  : list Candidate :=
  let results := search query top_k in
  let query_words := word_set query in
  fold_left (bm25_format query_words) results [].

(** *** HybridRetriever *)

(** [self.semantic_weight], [self.keyword_weight] *)
Record HybridRetriever := mkHybridRetriever {
  semantic_weight : Q;
  keyword_weight : Q
}.

(** [HybridRetriever.__init__] with its default arguments. *)
Definition HybridRetriever_init : HybridRetriever :=
  {| semantic_weight := 0.7; keyword_weight := 0.3 |}.

(** First loop: [result_scores] after the semantic results. *)
Definition add_semantic (result_scores : list (string * Scores.t))
    (result : Candidate) : list (string * Scores.t) :=
  let doc_id := doc_id result in
  let result_scores :=
    if dict_mem doc_id result_scores then result_scores
    else result_scores ++ [(doc_id, Scores.mk result 0 0)] in
  dict_update
    (Scores.with_semantic (from_option id 0%Q (similarity_score result)))
    doc_id result_scores.

(** Second loop: the keyword results. *)
Definition add_keyword (result_scores : list (string * Scores.t))
    (result : Candidate) : list (string * Scores.t) :=
  let doc_id := doc_id result in
  let result_scores :=
    if dict_mem doc_id result_scores then result_scores
    else result_scores ++ [(doc_id, Scores.mk result 0 0)] in
  dict_update
    (Scores.with_keyword (from_option id 0%Q (bm25_score result)))
    doc_id result_scores.

Definition build_result_scores (semantic_results keyword_results : list Candidate)
  : list (string * Scores.t) :=
  fold_left add_keyword keyword_results
    (fold_left add_semantic semantic_results []).

(** Body of the third loop: one fused copy per dictionary item. *)
Definition combine (self : HybridRetriever) (item : string * Scores.t)
  : Candidate :=
  let scores := item.2 in
  let combined_score :=
    (semantic_weight self * Scores.semantic_score scores +
     keyword_weight self * Scores.keyword_score scores)%Q in
  let result := Scores.document scores in
  let result := set_combined_score combined_score result in
  let result := set_semantic_score (Scores.semantic_score scores) result in
  let result := set_keyword_score (Scores.keyword_score scores) result in
  result.

(** Sort key [x['combined_score']]; every element of the sorted list
    carries the key. *)
Definition combined_key (x : Candidate) : Q :=
  from_option id 0%Q (combined_score x).

(** [combined_results] after the sort, before the final slice. *)
Definition fused_results (self : HybridRetriever)
    (semantic_results keyword_results : list Candidate) : list Candidate :=
  let result_scores := build_result_scores semantic_results keyword_results in
  let combined_results := fmap (combine self) result_scores in
  sort_desc combined_key combined_results.

Definition HybridRetriever_retrieve (self : HybridRetriever)
    (query : string) (top_k : Z) : list Candidate :=
  let semantic_results := SemanticRetriever_retrieve query (top_k * 2) in
  let keyword_results := BM25Retriever_retrieve query (top_k * 2) in
  slice_to (fused_results self semantic_results keyword_results) top_k.

(** *** RankedRetrievalService *)

Record RankedRetrievalService := mkService {
  hybrid_retriever : HybridRetriever
}.

Definition RankedRetrievalService_init : RankedRetrievalService :=
  {| hybrid_retriever := HybridRetriever_init |}.

(** [result.get('metadata', {}).get('book_id')] *)
Definition book_id_of (result : Candidate) : option MetaValue :=
  metadata result !! "book_id".

(** The list comprehension of the book filter. *)
Definition book_filter (book_id : string) (results : list Candidate)
  : list Candidate :=
  filter (λ result, book_id_of result = Some (MStr book_id)) results.

(** [if book_id:] for an [Optional[str]]. *)
Definition truthy (book_id : option string) : bool :=
  match book_id with
  | None => false
  | Some EmptyString => false
  | Some (String _ _) => true
  end.

(** [if book_id: results = [...]] *)
Definition scope_to_book (book_id : option string) (results : list Candidate)
  : list Candidate :=
  match book_id with
  | Some b => if truthy book_id then book_filter b results else results
  | None => results
  end.

(** The value bound to [combined_score] in the re-ranking loop. *)
Definition rerank_score (query_words : gset string) (result : Candidate) : Q :=
  let content_words := PyStr.split (PyStr.lower (content result)) in
  let term_overlap :=
    if decide (query_words = ∅) then 0%Q
    else ratio (size (query_words ∩ list_to_set content_words))
               (size query_words) in
  let length_score :=
    if ((length content_words <? 20) || (500 <? length content_words))%nat
    then 0.5%Q else 1.0%Q in
  let position_score := 1.0%Q in
  (0.5 * from_option id (from_option id 0 (semantic_score result))
                        (combined_score result) +
   0.3 * term_overlap +
   0.1 * length_score +
   0.1 * position_score)%Q.

(** Body of the re-ranking loop: the copy with its ['reranked_score']. *)
Definition rerank_item (query_words : gset string) (result : Candidate)
  : Candidate :=
  let combined_score := rerank_score query_words result in
  let reranked_item := result in
  set_reranked_score combined_score reranked_item.

Definition reranked_key (x : Candidate) : Q :=
  from_option id 0%Q (reranked_score x).

Definition _rerank_results (query : string) (results : list Candidate)
  : list Candidate :=
  let query_words := word_set query in
  let reranked_with_scores := fmap (rerank_item query_words) results in
  sort_desc reranked_key reranked_with_scores.

(** The public operations.  None of them contains a [raise]; each ends
    in [return]. *)
Definition retrieve_by_semantic_similarity (self : RankedRetrievalService)
    (query : string) (book_id : option string) (top_k : Z)
  : Outcome (list Candidate) :=
  let results := SemanticRetriever_retrieve query top_k in
  Return (scope_to_book book_id results).

Definition retrieve_by_keyword_matching (self : RankedRetrievalService)
    (query : string) (book_id : option string) (top_k : Z)
  : Outcome (list Candidate) :=
  let results := BM25Retriever_retrieve query top_k in
  Return (scope_to_book book_id results).

Definition retrieve_hybrid (self : RankedRetrievalService)
    (query : string) (book_id : option string) (top_k : Z)
  : Outcome (list Candidate) :=
  let results := HybridRetriever_retrieve (hybrid_retriever self) query top_k in
  Return (scope_to_book book_id results).

Definition retrieve_with_reranking (self : RankedRetrievalService)
    (query : string) (book_id : option string) (top_k : Z)
  : Outcome (list Candidate) :=
  let initial_results :=
    HybridRetriever_retrieve (hybrid_retriever self) query (top_k * 2) in
  let initial_results := scope_to_book book_id initial_results in
  let reranked_results := _rerank_results query initial_results in
  Return (slice_to reranked_results top_k).

End Retrievers.

(** ** The re-ranking loop over a store of objects

    The same loop with the result dictionaries as objects in a store:
    the list holds references, [result.copy()] allocates a new object and
    the assignment of ['reranked_score'] writes to that new object.  A
    reference is an index into the store. *)

Abbreviation Store := (list Candidate).
Abbreviation ref := nat.

(** [result.copy()]: the reference of the copy and the extended store;
    [None] for a reference to nothing. *)
Definition copy (result : ref) (h : Store) : option (ref * Store) :=
  match h !! result with
  | Some c => Some (length h, h ++ [c])
  | None => None
  end.

(** [obj['reranked_score'] = v] *)
Definition store_reranked_score (obj : ref) (v : Q) (h : Store) : Store :=
  alter (set_reranked_score v) obj h.

Fixpoint rerank_loop (query_words : gset string) (results : list ref)
    (reranked_with_scores : list ref) (h : Store) : option (list ref * Store) :=
  match results with
  | [] => Some (reranked_with_scores, h)
  | result :: rest =>
      match h !! result with
      | None => None
      | Some c =>
          let combined_score := rerank_score query_words c in
          match copy result h with
          | None => None
          | Some (reranked_item, h) =>
              let h := store_reranked_score reranked_item combined_score h in
              rerank_loop query_words rest
                (reranked_with_scores ++ [reranked_item]) h
          end
      end
  end.

(** Sort key [x['reranked_score']] read through a reference. *)
Definition reranked_key_at (h : Store) (x : ref) : Q :=
  from_option reranked_key 0%Q (h !! x).

Definition _rerank_results_store (query : string) (results : list ref)
    (h : Store) : option (list ref * Store) :=
  let query_words := word_set query in
  match rerank_loop query_words results [] h with
  | None => None
  | Some (reranked_with_scores, h) =>
      Some (sort_desc (reranked_key_at h) reranked_with_scores, h)
  end.

(** The objects a list of references points to. *)
Definition deref (h : Store) (refs : list ref) : list (option Candidate) :=
  fmap (λ r, h !! r) refs.

(** ** Vocabulary of the specification *)

(** The candidate [SemanticRetriever] builds from the hit at position [i]. *)
Definition semantic_candidate (i : nat) (result : Hit) : Candidate :=
  {| doc_id := hit_id result;
     content := hit_content result;
     metadata := hit_metadata result;
     rank := Some (i + 1)%nat;
     similarity_score := Some (1 - hit_distance result)%Q;
     bm25_score := None; combined_score := None;
     semantic_score := None; keyword_score := None;
     reranked_score := None |}.

(** [|query_words ∩ content_words| / |query_words|], 0 for no query word. *)
Definition term_overlap (query_words content_words : gset string) : Q :=
  if decide (size query_words = 0%nat) then 0%Q
  else ratio (size (query_words ∩ content_words)) (size query_words).

(** The candidate [BM25Retriever] builds from the hit at position [i]. *)
Definition keyword_candidate (query_words : gset string) (i : nat)
    (result : Hit) : Candidate :=
  {| doc_id := hit_id result;
     content := hit_content result;
     metadata := hit_metadata result;
     rank := Some (i + 1)%nat;
     similarity_score := None;
     bm25_score :=
       Some (term_overlap query_words (word_set (hit_content result)));
     combined_score := None;
     semantic_score := None; keyword_score := None;
     reranked_score := None |}.

(** Number of words of a text, repetitions counted. *)
Definition word_count (text : string) : nat :=
  length (PyStr.split (PyStr.lower text)).

(** Fused score if present, else semantic score, else 0. *)
Definition prior_composite_score (c : Candidate) : Q :=
  match combined_score c with
  | Some fused => fused
  | None => match semantic_score c with
            | Some semantic => semantic
            | None => 0%Q
            end
  end.

(** 1.0 inside the window [20, 500], 0.5 outside. *)
Definition length_score (words : nat) : Q :=
  if ((20 <=? words) && (words <=? 500))%nat then 1.0%Q else 0.5%Q.

Definition position_score : Q := 1.0%Q.

Definition reranked_formula (query : string) (c : Candidate) : Q :=
  (0.5 * prior_composite_score c +
   0.3 * term_overlap (word_set query) (word_set (content c)) +
   0.1 * length_score (word_count (content c)) +
   0.1 * position_score)%Q.

(** The score of identity [i] in a sub-retrieval: the score of a result
    carrying that identity, a missing score or a missing result counting
    as 0. *)
Definition score_or_zero (score : Candidate → option Q)
    (results : list Candidate) (i : string) (s : Q) : Prop :=
  (∃ r, r ∈ results ∧ doc_id r = i ∧ s = from_option id 0%Q (score r)) ∨
  ((i ∉ fmap doc_id results) ∧ s = 0%Q).

(** Every score a candidate carries lies in [0, 1]. *)
Definition within_unit (s : option Q) : Prop :=
  ∀ v, s = Some v → (0 <= v <= 1)%Q.

Definition scores_bounded (c : Candidate) : Prop :=
  within_unit (similarity_score c) ∧ within_unit (bm25_score c) ∧
  within_unit (combined_score c) ∧ within_unit (semantic_score c) ∧
  within_unit (keyword_score c) ∧ within_unit (reranked_score c).

(** [c'] agrees with [c] on every key but ['reranked_score']. *)
Definition same_but_reranked (c c' : Candidate) : Prop :=
  doc_id c' = doc_id c ∧ content c' = content c ∧
  metadata c' = metadata c ∧ rank c' = rank c ∧
  similarity_score c' = similarity_score c ∧ bm25_score c' = bm25_score c ∧
  combined_score c' = combined_score c ∧
  semantic_score c' = semantic_score c ∧ keyword_score c' = keyword_score c.

(** The sort keys of the two sub-retrievals. *)
Definition similarity_key (c : Candidate) : Q :=
  from_option id 0%Q (similarity_score c).

Definition bm25_key (c : Candidate) : Q :=
  from_option id 0%Q (bm25_score c).

(** What the keyword loop leaves of an entry it updates: the key and the
    semantic score. *)
Definition semantic_view (item : string * Scores.t) : string * Q :=
  (item.1, Scores.semantic_score item.2).

(** The candidates that belong to book [b]. *)
Definition in_book (b : string) (c : Candidate) : Prop :=
  metadata c !! "book_id" = Some (MStr b).

#[global] Instance in_book_dec b c : Decision (in_book b c).
Proof. unfold in_book. apply _. Defined.

(** [rank] is the 1-based position in the list. *)
Definition ranked_by_position (l : list Candidate) : Prop :=
  ∀ i c, l !! i = Some c → rank c = Some (i + 1)%nat.

(** The two loops that fill [result_scores] share their shape: [get] reads
    the score of a result, [put] stores it in the entry. *)
Definition add_result (get : Candidate → option Q) (put : Q → Scores.t → Scores.t)
    (result_scores : list (string * Scores.t)) (result : Candidate)
  : list (string * Scores.t) :=
  let doc_id := doc_id result in
  let result_scores :=
    if dict_mem doc_id result_scores then result_scores
    else result_scores ++ [(doc_id, Scores.mk result 0 0)] in
  dict_update (put (from_option id 0%Q (get result))) doc_id result_scores.

(** ** A two-chunk corpus

    The chunks of the specification's scenario.  The store answers every
    query with its chunks in ascending distance; in [Scenario] the castle
    chunk is the nearer one (distances 0.1 and 0.9), in [Corpus] the
    village chunk is (distances 0.4 and 0.5). *)

Module Scenario.
Definition castle : Hit :=
  mkHit "1" "the dragon flew over the castle" {[ "book_id" := MStr "B" ]} 0.1.
Definition village : Hit :=
  mkHit "2" "a quiet village morning" {[ "book_id" := MStr "A" ]} 0.9.
Definition search (query : string) (n_results : Z) : list Hit :=
  take (Z.to_nat n_results) [castle; village].
Definition generate_embedding (query : string) : list Q := [1%Q].
End Scenario.

Module Corpus.
Definition village : Hit :=
  mkHit "2" "a quiet village morning" {[ "book_id" := MStr "A" ]} 0.4.
Definition castle : Hit :=
  mkHit "1" "the dragon flew over the castle" {[ "book_id" := MStr "B" ]} 0.5.
Definition search (query : string) (n_results : Z) : list Hit :=
  take (Z.to_nat n_results) [village; castle].
Definition generate_embedding (query : string) : list Q := [1%Q].
(** An embedding generator that fails on every text. *)
Definition no_embedding (query : string) : list Q := [].
End Corpus.

(** [c] carries the data of the sub-retrieval result [r]: every key the
    fusion does not write. *)
Definition based_on (r c : Candidate) : Prop :=
  doc_id c = doc_id r ∧ content c = content r ∧ metadata c = metadata r ∧
  rank c = rank r ∧ similarity_score c = similarity_score r ∧
  bm25_score c = bm25_score r ∧ reranked_score c = reranked_score r.

(** The candidates whose sort key equals [k]. *)
Definition with_key {A : Type} (key : A → Q) (k : Q) (x : A) : Prop :=
  (key x == k)%Q.

#[global] Instance with_key_dec {A : Type} (key : A → Q) (k : Q) (x : A) :
  Decision (with_key key k x).
Proof. unfold with_key. apply Qeq_dec. Defined.

(** * Properties *)

(** ** Stable sorting *)

Section StableSortFacts.
Context {A : Type} (key : A → Q).

Lemma insert_desc_perm x l : insert_desc key x l ≡ₚ x :: l.
Proof.
  induction l as [|y l IH]; simpl; [done|].
  destruct (Qle_bool (key y) (key x)); [done|].
  rewrite IH. apply Permutation_swap.
Qed.

Lemma sort_desc_perm l : sort_desc key l ≡ₚ l.
Proof.
  induction l as [|x l IH]; simpl; [done|].
  rewrite insert_desc_perm. by rewrite IH.
Qed.

Lemma insert_asc_perm x l : insert_asc key x l ≡ₚ x :: l.
Proof.
  induction l as [|y l IH]; simpl; [done|].
  destruct (Qle_bool (key x) (key y)); [done|].
  rewrite IH. apply Permutation_swap.
Qed.

Lemma sort_asc_perm l : sort_asc key l ≡ₚ l.
Proof.
  induction l as [|x l IH]; simpl; [done|].
  rewrite insert_asc_perm. by rewrite IH.
Qed.

Lemma Qle_bool_false (a b : Q) : Qle_bool a b = false → (b <= a)%Q.
Proof.
  intros H. destruct (Qlt_le_dec b a) as [Hlt|Hle].
  - by apply Qlt_le_weak.
  - apply Qle_bool_iff in Hle. congruence.
Qed.

Lemma insert_desc_sorted x l :
  sorted_desc key l → sorted_desc key (insert_desc key x l).
Proof.
  unfold sorted_desc. induction l as [|y l IH]; simpl; intros Hs.
  - repeat constructor.
  - apply StronglySorted_inv in Hs as [Hs Hy].
    destruct (Qle_bool (key y) (key x)) eqn:E.
    + apply Qle_bool_iff in E. constructor; [by constructor|].
      constructor; [done|].
      eapply Forall_impl; [exact Hy|]. intros z Hz. simpl in *.
      by eapply Qle_trans.
    + apply Qle_bool_false in E. constructor; [by apply IH|].
      rewrite insert_desc_perm. by constructor.
Qed.

Lemma sort_desc_sorted l : sorted_desc key (sort_desc key l).
Proof.
  induction l as [|x l IH]; simpl; [constructor|].
  by apply insert_desc_sorted.
Qed.

Lemma insert_asc_sorted x l :
  sorted_asc key l → sorted_asc key (insert_asc key x l).
Proof.
  unfold sorted_asc. induction l as [|y l IH]; simpl; intros Hs.
  - repeat constructor.
  - apply StronglySorted_inv in Hs as [Hs Hy].
    destruct (Qle_bool (key x) (key y)) eqn:E.
    + apply Qle_bool_iff in E. constructor; [by constructor|].
      constructor; [done|].
      eapply Forall_impl; [exact Hy|]. intros z Hz. simpl in *.
      by eapply Qle_trans.
    + apply Qle_bool_false in E. constructor; [by apply IH|].
      rewrite insert_asc_perm. by constructor.
Qed.

Lemma sort_asc_sorted l : sorted_asc key (sort_asc key l).
Proof.
  induction l as [|x l IH]; simpl; [constructor|].
  by apply insert_asc_sorted.
Qed.

(** A stable sort leaves a list that is already in order as it is. *)
Lemma sort_desc_fixpoint l : sorted_desc key l → sort_desc key l = l.
Proof.
  unfold sorted_desc. induction l as [|x l IH]; simpl; intros Hs; [done|].
  apply StronglySorted_inv in Hs as [Hs Hx]. rewrite IH by done.
  destruct l as [|y l]; simpl; [done|].
  apply Forall_cons in Hx as [Hy _]. apply Qle_bool_iff in Hy.
  by rewrite Hy.
Qed.

Lemma sort_asc_fixpoint l : sorted_asc key l → sort_asc key l = l.
Proof.
  unfold sorted_asc. induction l as [|x l IH]; simpl; intros Hs; [done|].
  apply StronglySorted_inv in Hs as [Hs Hx]. rewrite IH by done.
  destruct l as [|y l]; simpl; [done|].
  apply Forall_cons in Hx as [Hy _]. apply Qle_bool_iff in Hy.
  by rewrite Hy.
Qed.

Lemma elem_of_sort_desc x l : x ∈ sort_desc key l ↔ x ∈ l.
Proof. by rewrite sort_desc_perm. Qed.

Lemma length_sort_desc l : length (sort_desc key l) = length l.
Proof. by rewrite sort_desc_perm. Qed.

End StableSortFacts.

(** Sorting commutes with a map that the key factors through. *)
Lemma sort_desc_map {A B : Type} (f : A → B) (key : B → Q) (l : list A) :
  fmap f (sort_desc (key ∘ f) l) = sort_desc key (fmap f l).
Proof.
  induction l as [|x l IH]; [done|].
  rewrite fmap_cons. simpl. rewrite <- IH.
  generalize (sort_desc (key ∘ f) l). intros m.
  induction m as [|y m IHm]; [done|]. simpl.
  destruct (Qle_bool (key (f y)) (key (f x))); [done|].
  rewrite fmap_cons. f_equal. apply IHm.
Qed.

Lemma sort_desc_ext {A : Type} (k1 k2 : A → Q) (l : list A) :
  (∀ x, x ∈ l → k1 x = k2 x) → sort_desc k1 l = sort_desc k2 l.
Proof.
  induction l as [|x l IH]; simpl; intros Hk; [done|].
  rewrite IH by (intros; apply Hk; by right).
  assert (Hx : k1 x = k2 x) by (apply Hk; by left).
  assert (Hm : ∀ y, y ∈ sort_desc k2 l → k1 y = k2 y).
  { intros y Hy. apply Hk. right. by apply elem_of_sort_desc in Hy. }
  revert Hm. generalize (sort_desc k2 l). intros m.
  induction m as [|y m IHm]; simpl; intros Hm; [done|].
  rewrite Hx, (Hm y) by left.
  destruct (Qle_bool (k2 y) (k2 x)); [done|].
  rewrite IHm; [done|]. intros; apply Hm; by right.
Qed.

(** ** Slices *)

Lemma slice_to_nonneg {A : Type} (l : list A) (k : Z) :
  (0 <= k)%Z → slice_to l k = take (Z.to_nat k) l.
Proof. intros H. unfold slice_to. by rewrite (proj2 (Z.leb_le 0 k) H). Qed.

Lemma length_slice_to {A : Type} (l : list A) (k : Z) :
  (0 <= k)%Z → (Z.of_nat (length (slice_to l k)) <= k)%Z.
Proof.
  intros H. rewrite slice_to_nonneg, length_take by done. lia.
Qed.

Lemma slice_to_sublist {A : Type} (l : list A) (k : Z) :
  slice_to l k `sublist_of` l.
Proof. unfold slice_to. destruct (0 <=? k)%Z; apply sublist_take. Qed.

(** ** Overlap ratios *)

Lemma ratio_bounds (n m : nat) :
  (n ≤ m)%nat → (0 < m)%nat → (0 <= ratio n m <= 1)%Q.
Proof.
  intros Hnm Hm. unfold ratio.
  assert (H0 : (0 < inject_Z (Z.of_nat m))%Q).
  { change 0%Q with (inject_Z 0). rewrite <- Zlt_Qlt. lia. }
  assert (Hn : (0 <= inject_Z (Z.of_nat n))%Q).
  { change 0%Q with (inject_Z 0). rewrite <- Zle_Qle. lia. }
  assert (Hle : (inject_Z (Z.of_nat n) <= inject_Z (Z.of_nat m))%Q).
  { rewrite <- Zle_Qle. lia. }
  split.
  - apply Qle_shift_div_l; [done|]. by rewrite Qmult_0_l.
  - apply Qle_shift_div_r; [done|]. by rewrite Qmult_1_l.
Qed.

Lemma term_overlap_bounds (query_words content_words : gset string) :
  (0 <= term_overlap query_words content_words <= 1)%Q.
Proof.
  unfold term_overlap. case_decide as Hsz.
  - split; [apply Qle_refl | discriminate].
  - apply ratio_bounds; [|lia].
    apply subseteq_size, intersection_subseteq_l.
Qed.

(** The guards [len(query_words) > 0] of the keyword retriever and
    [if query_words] of the re-ranker select the same ratio. *)
Lemma bm25_guard (query_words content_words : gset string) :
  (if (0 <? size query_words)%nat
   then ratio (size (query_words ∩ content_words)) (size query_words)
   else 0%Q) = term_overlap query_words content_words.
Proof.
  unfold term_overlap. case_decide as Hsz.
  - by rewrite Hsz.
  - by rewrite (proj2 (Nat.ltb_lt 0 (size query_words))) by lia.
Qed.

Lemma rerank_guard (query_words content_words : gset string) :
  (if decide (query_words = ∅) then 0%Q
   else ratio (size (query_words ∩ content_words)) (size query_words))
  = term_overlap query_words content_words.
Proof.
  unfold term_overlap. destruct (decide (query_words = ∅)) as [->|Hne].
  - by rewrite size_empty.
  - case_decide as Hsz; [|done].
    apply size_empty_inv in Hsz. by apply leibniz_equiv in Hsz.
Qed.

Lemma word_set_empty : word_set "" = ∅.
Proof. reflexivity. Qed.

(** ** The formatting loops *)

Lemma semantic_format_eq acc result :
  semantic_format acc result = acc ++ [semantic_candidate (length acc) result].
Proof. reflexivity. Qed.

Lemma bm25_format_eq query_words acc result :
  bm25_format query_words acc result =
  acc ++ [keyword_candidate query_words (length acc) result].
Proof.
  unfold bm25_format, keyword_candidate. by rewrite bm25_guard.
Qed.

Lemma semantic_loop (results : list Hit) (acc : list Candidate) :
  fold_left semantic_format results acc =
  acc ++ imap (λ i, semantic_candidate (length acc + i)) results.
Proof.
  revert acc. induction results as [|r results IH]; intros acc; simpl.
  - by rewrite app_nil_r.
  - rewrite IH, semantic_format_eq, <- app_assoc. f_equal. simpl. f_equal.
    + by rewrite Nat.add_0_r.
    + apply imap_ext. intros i x _. simpl.
      rewrite length_app. simpl. f_equal. lia.
Qed.

Lemma keyword_loop query_words (results : list Hit) (acc : list Candidate) :
  fold_left (bm25_format query_words) results acc =
  acc ++ imap (λ i, keyword_candidate query_words (length acc + i)) results.
Proof.
  revert acc. induction results as [|r results IH]; intros acc; simpl.
  - by rewrite app_nil_r.
  - rewrite IH, bm25_format_eq, <- app_assoc. f_equal. simpl. f_equal.
    + by rewrite Nat.add_0_r.
    + apply imap_ext. intros i x _. simpl.
      rewrite length_app. simpl. f_equal. lia.
Qed.

Section RetrieverFacts.
Variable generate_embedding : string → list Q.
Variable search : string → Z → list Hit.

Lemma semantic_retrieve_eq query top_k :
  generate_embedding query ≠ [] →
  SemanticRetriever_retrieve generate_embedding search query top_k =
  imap semantic_candidate (sort_asc hit_distance (search query top_k)).
Proof.
  intros Hne. unfold SemanticRetriever_retrieve.
  destruct (generate_embedding query); [done|].
  by rewrite semantic_loop.
Qed.

Lemma semantic_retrieve_no_embedding query top_k :
  generate_embedding query = [] →
  SemanticRetriever_retrieve generate_embedding search query top_k = [].
Proof. intros He. unfold SemanticRetriever_retrieve. by rewrite He. Qed.

Lemma keyword_retrieve_eq query top_k :
  BM25Retriever_retrieve search query top_k =
  imap (keyword_candidate (word_set query)) (search query top_k).
Proof. unfold BM25Retriever_retrieve. by rewrite keyword_loop. Qed.

End RetrieverFacts.

(** ** Dictionaries *)

Section DictFacts.
Context {V : Type}.
Implicit Types (d : list (string * V)) (k : string).

Lemma dict_mem_keys k d : dict_mem k d = true ↔ k ∈ keys d.
Proof.
  unfold keys. induction d as [|[k' v] d IH]; simpl.
  - split; [done|]. by intros ?%elem_of_nil.
  - rewrite elem_of_cons. case_decide as Hk.
    + split; [by left | done].
    + rewrite IH. split; [by right | by intros [?|?]].
Qed.

Lemma dict_mem_false k d : dict_mem k d = false ↔ k ∉ keys d.
Proof.
  rewrite <- dict_mem_keys. destruct (dict_mem k d); split; done.
Qed.

Lemma dict_update_keys f k d : keys (dict_update f k d) = keys d.
Proof.
  unfold keys. induction d as [|[k' v] d IH]; simpl; [done|].
  case_decide; simpl; [done|]. f_equal. apply IH.
Qed.

Lemma dict_get_update f k0 k d :
  dict_get k (dict_update f k0 d) =
  if decide (k = k0) then f <$> dict_get k0 d else dict_get k d.
Proof.
  induction d as [|[k' v] d IH]; simpl.
  - by case_decide.
  - destruct (decide (k0 = k')) as [->|Hne]; simpl;
      destruct (decide (k = k')) as [->|Hk]; simpl; try done.
    by rewrite decide_False by done.
Qed.

Lemma dict_get_snoc k k0 (v : V) d :
  dict_get k (d ++ [(k0, v)]) =
  match dict_get k d with
  | Some x => Some x
  | None => if decide (k = k0) then Some v else None
  end.
Proof.
  induction d as [|[k' v'] d IH]; simpl; [done|].
  by destruct (decide (k = k')).
Qed.

Lemma dict_get_None k d : dict_get k d = None ↔ k ∉ keys d.
Proof.
  unfold keys. induction d as [|[k' v] d IH]; simpl.
  - split; [|done]. intros _ ?%elem_of_nil. done.
  - rewrite not_elem_of_cons. case_decide as Hk.
    + split; [done | by intros [? _]].
    + rewrite IH. split; [done | by intros [_ ?]].
Qed.

Lemma dict_get_elem k (v : V) d : dict_get k d = Some v → (k, v) ∈ d.
Proof.
  induction d as [|[k' v'] d IH]; simpl; [done|].
  case_decide as Hk; intros Hg.
  - simplify_eq. by left.
  - right. by apply IH.
Qed.

Lemma elem_dict_get k (v : V) d :
  NoDup (keys d) → (k, v) ∈ d → dict_get k d = Some v.
Proof.
  unfold keys. induction d as [|[k' v'] d IH]; simpl.
  - by intros _ ?%elem_of_nil.
  - intros [Hk Hd]%NoDup_cons [Heq|Hin]%elem_of_cons.
    + simplify_eq. by rewrite decide_True.
    + rewrite decide_False; [by apply IH|].
      intros ->. apply Hk. by apply (list_elem_of_fmap_2 fst _ (k', v)).
Qed.

End DictFacts.

(** ** Fusion: the dictionary of scores *)

Lemma add_semantic_eq :
  add_semantic = add_result similarity_score Scores.with_semantic.
Proof. reflexivity. Qed.

Lemma add_keyword_eq :
  add_keyword = add_result bm25_score Scores.with_keyword.
Proof. reflexivity. Qed.

Section AddResult.
Variable get : Candidate → option Q.
Variable put : Q → Scores.t → Scores.t.
Implicit Types (d : list (string * Scores.t)) (r : Candidate).

Lemma add_result_keys d r :
  keys (add_result get put d r) =
  if dict_mem (doc_id r) d then keys d else keys d ++ [doc_id r].
Proof.
  unfold add_result. rewrite dict_update_keys.
  destruct (dict_mem (doc_id r) d); [done|].
  unfold keys. by rewrite fmap_app.
Qed.

Lemma add_result_get k d r :
  dict_get k (add_result get put d r) =
  if decide (k = doc_id r)
  then Some (put (from_option id 0%Q (get r))
                 (from_option id (Scores.mk r 0 0) (dict_get k d)))
  else dict_get k d.
Proof.
  unfold add_result. rewrite dict_get_update.
  destruct (decide (k = doc_id r)) as [->|Hk].
  - destruct (dict_mem (doc_id r) d) eqn:E.
    + apply dict_mem_keys in E.
      destruct (dict_get (doc_id r) d) eqn:G; [done|].
      by apply dict_get_None in G.
    + apply dict_mem_false, dict_get_None in E.
      by rewrite dict_get_snoc, E, decide_True.
  - destruct (dict_mem (doc_id r) d); [done|].
    rewrite dict_get_snoc. destruct (dict_get k d); [done|].
    by rewrite decide_False.
Qed.

Lemma add_result_NoDup d r :
  NoDup (keys d) → NoDup (keys (add_result get put d r)).
Proof.
  intros Hd. rewrite add_result_keys.
  destruct (dict_mem (doc_id r) d) eqn:E; [done|].
  apply dict_mem_false in E. apply NoDup_app. split_and!; [done| |].
  - intros x Hx ->%list_elem_of_singleton. done.
  - apply NoDup_singleton.
Qed.

Lemma add_result_elem_keys k d r :
  k ∈ keys (add_result get put d r) ↔ k ∈ keys d ∨ k = doc_id r.
Proof.
  rewrite add_result_keys. destruct (dict_mem (doc_id r) d) eqn:E.
  - apply dict_mem_keys in E. split; [by left|]. by intros [?| ->].
  - rewrite elem_of_app, list_elem_of_singleton. done.
Qed.

Lemma fold_add_result_NoDup l d :
  NoDup (keys d) → NoDup (keys (fold_left (add_result get put) l d)).
Proof.
  revert d. induction l as [|r l IH]; intros d Hd; simpl; [done|].
  by apply IH, add_result_NoDup.
Qed.

Lemma fold_add_result_keys l d k :
  k ∈ keys (fold_left (add_result get put) l d) ↔
  k ∈ keys d ∨ k ∈ doc_id <$> l.
Proof.
  revert d. induction l as [|r l IH]; intros d; cbn [fold_left].
  - split; [by left|]. intros [?|?%elem_of_nil]; done.
  - rewrite IH, add_result_elem_keys, fmap_cons, elem_of_cons.
    split; [intros [[?|?]|?] | intros [?|[?|?]]]; auto.
Qed.

End AddResult.

Lemma add_semantic_get k d r :
  dict_get k (add_semantic d r) =
  if decide (k = doc_id r)
  then Some (Scores.with_semantic (from_option id 0%Q (similarity_score r))
               (from_option id (Scores.mk r 0 0) (dict_get k d)))
  else dict_get k d.
Proof. apply add_result_get. Qed.

Lemma add_keyword_get k d r :
  dict_get k (add_keyword d r) =
  if decide (k = doc_id r)
  then Some (Scores.with_keyword (from_option id 0%Q (bm25_score r))
               (from_option id (Scores.mk r 0 0) (dict_get k d)))
  else dict_get k d.
Proof. apply add_result_get. Qed.

Lemma fold_add_semantic_keys l d k :
  k ∈ keys (fold_left add_semantic l d) ↔ k ∈ keys d ∨ k ∈ doc_id <$> l.
Proof. apply fold_add_result_keys. Qed.

Lemma fold_add_keyword_keys l d k :
  k ∈ keys (fold_left add_keyword l d) ↔ k ∈ keys d ∨ k ∈ doc_id <$> l.
Proof. apply fold_add_result_keys. Qed.

Lemma score_or_zero_snoc_other get seen r k s :
  k ≠ doc_id r → score_or_zero get seen k s →
  score_or_zero get (seen ++ [r]) k s.
Proof.
  intros Hk [(r' & Hin & Hid & Hs)|[Hni Hs]].
  - left. exists r'. split_and!; [|done..]. apply elem_of_app. by left.
  - right. split; [|done]. rewrite fmap_app, elem_of_app.
    intros [?|Hr]; [done|]. by apply list_elem_of_singleton in Hr.
Qed.

Lemma score_or_zero_snoc_same get seen r :
  score_or_zero get (seen ++ [r]) (doc_id r) (from_option id 0%Q (get r)).
Proof.
  left. exists r. split_and!; [|done..].
  apply elem_of_app. right. by apply list_elem_of_singleton.
Qed.

(** After the first loop every entry holds the semantic score of a
    semantic result with its identity, and keyword score 0. *)
Lemma semantic_entries (sem : list Candidate) k e :
  dict_get k (fold_left add_semantic sem []) = Some e →
  doc_id (Scores.document e) = k ∧
  (∃ r, r ∈ sem ∧ doc_id r = k ∧
        Scores.semantic_score e = from_option id 0%Q (similarity_score r)) ∧
  Scores.keyword_score e = 0%Q.
Proof.
  revert k e. induction sem as [|r sem IH] using rev_ind; intros k e.
  - done.
  - rewrite fold_left_app. cbn [fold_left]. rewrite add_semantic_get.
    case_decide as Hk.
    + intros [= <-]. subst k.
      destruct (dict_get (doc_id r) (fold_left add_semantic sem [])) as [e0|] eqn:G.
      * apply IH in G as (Hd & _ & Hkw). simpl. split_and!; [done| |done].
        exists r. split_and!; [|done..]. apply elem_of_app. right.
        by apply list_elem_of_singleton.
      * simpl. split_and!; [done| |done].
        exists r. split_and!; [|done..]. apply elem_of_app. right.
        by apply list_elem_of_singleton.
    + intros G. apply IH in G as (Hd & (r' & Hin & Hid & Hs) & Hkw).
      split_and!; [done| |done]. exists r'. split_and!; [|done..].
      apply elem_of_app. by left.
Qed.

(** After both loops every entry holds, for its identity, the semantic
    score and the keyword score, each 0 when that retrieval has no result
    with the identity. *)
Lemma result_scores_entries (sem kwd : list Candidate) k e :
  dict_get k (build_result_scores sem kwd) = Some e →
  doc_id (Scores.document e) = k ∧
  score_or_zero similarity_score sem k (Scores.semantic_score e) ∧
  score_or_zero bm25_score kwd k (Scores.keyword_score e).
Proof.
  unfold build_result_scores.
  revert k e. induction kwd as [|r kwd IH] using rev_ind; intros k e.
  - simpl. intros G. apply semantic_entries in G as (Hd & Hs & Hkw).
    split_and!; [done|by left|]. right. split; [|done]. by intros ?%elem_of_nil.
  - rewrite fold_left_app. cbn [fold_left]. rewrite add_keyword_get.
    case_decide as Hk.
    + intros [= <-]. subst k.
      destruct (dict_get (doc_id r) _) as [e0|] eqn:G.
      * apply IH in G as (Hd & Hs & _). simpl.
        split_and!; [done..|]. apply score_or_zero_snoc_same.
      * simpl. split_and!; [done| |apply score_or_zero_snoc_same].
        right. split; [|done]. intros Hin.
        apply dict_get_None in G. apply G.
        rewrite fold_add_keyword_keys. left.
        rewrite fold_add_semantic_keys. by right.
    + intros G. apply IH in G as (Hd & Hs & Hkw).
      split_and!; [done..|]. by apply score_or_zero_snoc_other.
Qed.

Lemma result_scores_keys (sem kwd : list Candidate) k :
  k ∈ keys (build_result_scores sem kwd) ↔
  k ∈ doc_id <$> sem ∨ k ∈ doc_id <$> kwd.
Proof.
  unfold build_result_scores.
  rewrite fold_add_keyword_keys, fold_add_semantic_keys.
  split; [intros [[?%elem_of_nil|?]|?] | intros [?|?]]; try done.
  - by left.
  - by right.
  - left. by right.
  - by right.
Qed.

Lemma result_scores_NoDup (sem kwd : list Candidate) :
  NoDup (keys (build_result_scores sem kwd)).
Proof.
  unfold build_result_scores. rewrite add_keyword_eq, add_semantic_eq.
  apply fold_add_result_NoDup, fold_add_result_NoDup. constructor.
Qed.

(** ** Fusion: the fused candidates *)

Lemma result_scores_elem (sem kwd : list Candidate) k e :
  (k, e) ∈ build_result_scores sem kwd →
  doc_id (Scores.document e) = k ∧
  score_or_zero similarity_score sem k (Scores.semantic_score e) ∧
  score_or_zero bm25_score kwd k (Scores.keyword_score e).
Proof.
  intros Hin. apply result_scores_entries.
  apply elem_dict_get; [apply result_scores_NoDup | done].
Qed.

Lemma combine_doc_id self item :
  doc_id (combine self item) = doc_id (Scores.document item.2).
Proof. reflexivity. Qed.

Lemma combined_ids self (sem kwd : list Candidate) :
  doc_id <$> (combine self <$> build_result_scores sem kwd) =
  keys (build_result_scores sem kwd).
Proof.
  unfold keys. rewrite <- list_fmap_compose.
  apply list_fmap_ext. intros i [k e] Hi. simpl.
  apply list_elem_of_lookup_2 in Hi.
  by apply result_scores_elem in Hi as [? _].
Qed.

Lemma fused_results_perm self (sem kwd : list Candidate) :
  fused_results self sem kwd ≡ₚ combine self <$> build_result_scores sem kwd.
Proof. apply sort_desc_perm. Qed.

Lemma fused_results_sorted self (sem kwd : list Candidate) :
  sorted_desc combined_key (fused_results self sem kwd).
Proof. apply sort_desc_sorted. Qed.

(** Every list the fusion sorts carries the sort key. *)
Lemma fused_results_combined self (sem kwd : list Candidate) c :
  c ∈ fused_results self sem kwd → is_Some (combined_score c).
Proof.
  rewrite fused_results_perm. intros (item & -> & _)%list_elem_of_fmap.
  by eexists.
Qed.

Section HybridFacts.
Variable generate_embedding : string → list Q.
Variable search : string → Z → list Hit.

(** C1.  For top_k ≥ 1 the identities of the fused list are exactly those
    returned by the semantic and the keyword retrieval (each asked for
    2 × top_k), one fused candidate per identity; every fused candidate
    carries semantic_weight × semantic + keyword_weight × keyword, a score
    missing from a sub-retrieval counting as 0; and the output is the
    first top_k fused candidates. *)
Theorem hybrid_union_fusion (self : HybridRetriever) (query : string) (top_k : Z) :
  (1 <= top_k)%Z →
  let semantic_results :=
    SemanticRetriever_retrieve generate_embedding search query (top_k * 2) in
  let keyword_results := BM25Retriever_retrieve search query (top_k * 2) in
  let fused := fused_results self semantic_results keyword_results in
  let output :=
    HybridRetriever_retrieve generate_embedding search self query top_k in
  (∀ i, i ∈ doc_id <$> fused ↔
        i ∈ doc_id <$> semantic_results ∨ i ∈ doc_id <$> keyword_results) ∧
  NoDup (doc_id <$> fused) ∧
  (∀ c, c ∈ fused →
     ∃ s k,
       score_or_zero similarity_score semantic_results (doc_id c) s ∧
       score_or_zero bm25_score keyword_results (doc_id c) k ∧
       semantic_score c = Some s ∧ keyword_score c = Some k ∧
       combined_score c =
         Some (semantic_weight self * s + keyword_weight self * k)%Q) ∧
  output = take (Z.to_nat top_k) fused ∧
  (Z.of_nat (length output) <= top_k)%Z.
Proof.
  intros Hk sem kwd fused output.
  assert (Hids : doc_id <$> fused ≡ₚ keys (build_result_scores sem kwd)).
  { unfold fused. rewrite fused_results_perm. by rewrite combined_ids. }
  split_and!.
  - intros i. rewrite Hids. apply result_scores_keys.
  - rewrite Hids. apply result_scores_NoDup.
  - intros c. unfold fused. rewrite fused_results_perm.
    intros ([k e] & -> & Hin)%list_elem_of_fmap.
    apply result_scores_elem in Hin as (Hd & Hs & Hkw).
    exists (Scores.semantic_score e), (Scores.keyword_score e).
    rewrite combine_doc_id. simpl. rewrite Hd. by split_and!.
  - unfold output, HybridRetriever_retrieve. apply slice_to_nonneg. lia.
  - unfold output, HybridRetriever_retrieve. apply length_slice_to. lia.
Qed.

End HybridFacts.

(** ** The specification's scenario *)

Example scenario_keyword :
  (λ c, (doc_id c, bm25_score c)) <$>
    BM25Retriever_retrieve Scenario.search "dragon" 5 =
  [("1", Some 1%Q); ("2", Some 0%Q)].
Proof. reflexivity. Qed.

Example scenario_hybrid :
  (λ c, (doc_id c, combined_score c)) <$>
    HybridRetriever_retrieve Scenario.generate_embedding Scenario.search
      HybridRetriever_init "dragon" 5 =
  [("1", Some 0.930%Q); ("2", Some 0.070%Q)].
Proof. reflexivity. Qed.

(** ** Order and rank of the keyword and hybrid results *)

(** The keyword retriever answers in the order of the index. *)
Lemma keyword_ids_in_index_order (search : string → Z → list Hit) query top_k :
  doc_id <$> BM25Retriever_retrieve search query top_k =
  hit_id <$> search query top_k.
Proof.
  rewrite keyword_retrieve_eq, fmap_imap.
  generalize (search query top_k). intros l.
  apply list_eq. intros i. rewrite list_lookup_imap, list_lookup_fmap.
  by destruct (l !! i).
Qed.

(** C3.  On the corpus, for the query "dragon", the keyword retriever
    returns the chunk with score 0 before the chunk with score 1: its
    output is not in descending order of the keyword score. *)
Theorem keyword_results_not_sorted :
  let results := BM25Retriever_retrieve Corpus.search "dragon" 5 in
  (λ c, (doc_id c, bm25_score c)) <$> results =
    [("2", Some 0%Q); ("1", Some 1%Q)] ∧
  ¬ sorted_desc bm25_key results.
Proof.
  split; [reflexivity|].
  intros Hs. vm_compute in Hs.
  apply StronglySorted_inv in Hs as [_ HF].
  apply Forall_cons in HF as [H _]. by apply H.
Qed.

(** The fused copy and the re-ranked copy keep the rank of the result they
    were copied from. *)
Lemma combine_rank self item :
  rank (combine self item) = rank (Scores.document item.2).
Proof. reflexivity. Qed.

Lemma rerank_item_rank query_words c : rank (rerank_item query_words c) = rank c.
Proof. reflexivity. Qed.

(** C4.  On the corpus, for the query "dragon", the hybrid retriever puts
    chunk 1 first and chunk 2 second, with ranks 2 and 1: the ranks are
    those of the semantic retrieval, not the positions in the fused order.
    The re-ranker keeps them as well. *)
Theorem hybrid_rank_not_recomputed :
  let output :=
    HybridRetriever_retrieve Corpus.generate_embedding Corpus.search
      HybridRetriever_init "dragon" 5 in
  (λ c, (doc_id c, rank c, combined_score c)) <$> output =
    [("1", Some 2%nat, Some 0.650%Q); ("2", Some 1%nat, Some 0.420%Q)] ∧
  ¬ ranked_by_position output ∧
  (λ c, (doc_id c, rank c)) <$> _rerank_results "dragon" output =
    [("1", Some 2%nat); ("2", Some 1%nat)] ∧
  ¬ ranked_by_position (_rerank_results "dragon" output).
Proof.
  split_and!; [reflexivity| |reflexivity|].
  - intros Hr. by specialize (Hr 0%nat _ eq_refl).
  - intros Hr. by specialize (Hr 0%nat _ eq_refl).
Qed.

(** C9.  On the corpus, with weights 0 and 1, the hybrid order is chunk 1
    then chunk 2, while the keyword retriever over the same pool answers
    chunk 2 then chunk 1. *)
Theorem hybrid_keyword_limit_differs :
  doc_id <$> HybridRetriever_retrieve Corpus.generate_embedding Corpus.search
               (mkHybridRetriever 0 1) "dragon" 5 = ["1"; "2"] ∧
  doc_id <$> BM25Retriever_retrieve Corpus.search "dragon" (5 * 2) = ["2"; "1"].
Proof. split; reflexivity. Qed.

(** ** The re-ranking score *)

Lemma length_score_guard (n : nat) :
  (if ((n <? 20) || (500 <? n))%nat then 0.5%Q else 1.0%Q) = length_score n.
Proof.
  unfold length_score.
  destruct (Nat.ltb_spec n 20), (Nat.ltb_spec 500 n),
    (Nat.leb_spec 20 n), (Nat.leb_spec n 500); simpl; try done; lia.
Qed.

Lemma prior_composite_score_get (c : Candidate) :
  from_option id (from_option id 0%Q (semantic_score c)) (combined_score c) =
  prior_composite_score c.
Proof.
  unfold prior_composite_score.
  by destruct (combined_score c), (semantic_score c).
Qed.

Lemma rerank_score_formula (query : string) (c : Candidate) :
  rerank_score (word_set query) c = reranked_formula query c.
Proof.
  unfold rerank_score, reranked_formula, word_count, position_score.
  by rewrite rerank_guard, length_score_guard, prior_composite_score_get.
Qed.

Lemma rerank_item_same (query_words : gset string) (c : Candidate) :
  same_but_reranked c (rerank_item query_words c).
Proof. by repeat split. Qed.

Lemma elem_of_rerank_results query results c' :
  c' ∈ _rerank_results query results ↔
  ∃ c, c' = rerank_item (word_set query) c ∧ c ∈ results.
Proof.
  unfold _rerank_results. by rewrite elem_of_sort_desc, list_elem_of_fmap.
Qed.

(** C2.  The re-ranker gives every candidate it is passed a copy whose
    re-ranked score is 0.5 × prior composite + 0.3 × term overlap +
    0.1 × length score + 0.1 × position score, and returns nothing else;
    the prior composite is the fused score if present, else the semantic
    score, else 0; the overlap is 0 for a query without words; the length
    score is 1.0 exactly for 20 to 500 words; the position score is 1.0. *)
Theorem reranked_score_is_formula (query : string) (results : list Candidate) :
  (∀ c, c ∈ results →
     ∃ c', c' ∈ _rerank_results query results ∧ same_but_reranked c c' ∧
           reranked_score c' = Some (reranked_formula query c)) ∧
  (∀ c', c' ∈ _rerank_results query results →
     ∃ c, c ∈ results ∧ same_but_reranked c c' ∧
          reranked_score c' = Some (reranked_formula query c)) ∧
  (∀ c, reranked_formula query c =
        (0.5 * prior_composite_score c +
         0.3 * term_overlap (word_set query) (word_set (content c)) +
         0.1 * length_score (word_count (content c)) +
         0.1 * 1.0)%Q) ∧
  (∀ c f, combined_score c = Some f → prior_composite_score c = f) ∧
  (∀ c s, combined_score c = None → semantic_score c = Some s →
          prior_composite_score c = s) ∧
  (∀ c, combined_score c = None → semantic_score c = None →
        prior_composite_score c = 0%Q) ∧
  (∀ content_words, word_set query = ∅ →
     term_overlap (word_set query) content_words = 0%Q) ∧
  (∀ content_words, word_set query ≠ ∅ →
     term_overlap (word_set query) content_words =
     ratio (size (word_set query ∩ content_words)) (size (word_set query))) ∧
  (∀ n, length_score n = 1.0%Q ↔ (20 ≤ n ≤ 500)%nat) ∧
  (∀ n, length_score n = 0.5%Q ↔ ¬ (20 ≤ n ≤ 500)%nat).
Proof.
  split_and!.
  - intros c Hc. exists (rerank_item (word_set query) c). split_and!.
    + apply elem_of_rerank_results. by exists c.
    + apply rerank_item_same.
    + simpl. by rewrite rerank_score_formula.
  - intros c' (c & -> & Hc)%elem_of_rerank_results. exists c. split_and!.
    + done.
    + apply rerank_item_same.
    + simpl. by rewrite rerank_score_formula.
  - done.
  - intros c f Hf. unfold prior_composite_score. by rewrite Hf.
  - intros c s Hf Hs. unfold prior_composite_score. by rewrite Hf, Hs.
  - intros c Hf Hs. unfold prior_composite_score. by rewrite Hf, Hs.
  - intros cw ->. unfold term_overlap. by rewrite size_empty.
  - intros cw Hne. by rewrite <- rerank_guard, decide_False.
  - intros n. unfold length_score.
    destruct (Nat.leb_spec 20 n), (Nat.leb_spec n 500); simpl;
      split; try done; lia.
  - intros n. unfold length_score.
    destruct (Nat.leb_spec 20 n), (Nat.leb_spec n 500); simpl;
      split; try done; lia.
Qed.

(** ** Empty queries *)

Section EmptyQuery.
Variable generate_embedding : string → list Q.
Variable search : string → Z → list Hit.

Lemma keyword_candidate_no_words i result :
  bm25_score (keyword_candidate ∅ i result) = Some 0%Q.
Proof. reflexivity. Qed.

(** C6, as the code has it.  For the empty query the keyword retriever
    returns one candidate per hit of the index, in the order of the index,
    each with keyword score 0; its result is empty exactly when the index
    returns nothing.  The semantic retriever returns the empty sequence
    when the embedding of the empty query is empty. *)
Theorem empty_query_keyword_scores_zero (top_k : Z) :
  let results := BM25Retriever_retrieve search "" top_k in
  doc_id <$> results = hit_id <$> search "" top_k ∧
  Forall (λ c, bm25_score c = Some 0%Q) results ∧
  (results = [] ↔ search "" top_k = []) ∧
  (generate_embedding "" = [] →
   SemanticRetriever_retrieve generate_embedding search "" top_k = []).
Proof.
  intros results. split_and!.
  - apply keyword_ids_in_index_order.
  - unfold results. rewrite keyword_retrieve_eq, word_set_empty.
    apply Forall_lookup. intros i c. rewrite list_lookup_imap.
    destruct (search "" top_k !! i); [|done]. by intros [= <-].
  - unfold results. rewrite keyword_retrieve_eq.
    destruct (search "" top_k); [done|]. split; discriminate.
  - apply semantic_retrieve_no_embedding.
Qed.

End EmptyQuery.

Lemma empty_query_keyword_scores_zero_witness :
  Corpus.no_embedding "" = [] ∧
  SemanticRetriever_retrieve Corpus.no_embedding Corpus.search "" 5 = [].
Proof.
  split; [reflexivity|].
  apply (empty_query_keyword_scores_zero Corpus.no_embedding Corpus.search 5).
  reflexivity.
Defined.

(** The keyword retriever answers the empty query with both chunks of the
    corpus. *)
Lemma empty_query_keyword_nonempty :
  doc_id <$> BM25Retriever_retrieve Corpus.search "" 5 = ["2"; "1"] ∧
  BM25Retriever_retrieve Corpus.search "" 5 ≠ [].
Proof. split; [reflexivity | discriminate]. Qed.

(** ** The service boundary *)

Section Service.
Variable generate_embedding : string → list Q.
Variable search : string → Z → list Hit.

Lemma slice_to_zero {A : Type} (l : list A) : slice_to l 0 = [].
Proof. reflexivity. Qed.

(** C7, as the code has it.  A call with top_k < 1 is not rejected: each
    public operation returns normally, and for top_k = 0 the hybrid and the
    re-ranking operation return the empty sequence. *)
Theorem top_k_below_one_returns (self : RankedRetrievalService)
    (query : string) (book_id : option string) (top_k : Z) :
  (top_k < 1)%Z →
  (∃ results,
     retrieve_by_semantic_similarity generate_embedding search self
       query book_id top_k = Return results) ∧
  (∃ results,
     retrieve_by_keyword_matching search self query book_id top_k =
     Return results) ∧
  (∃ results,
     retrieve_hybrid generate_embedding search self query book_id top_k =
     Return results ∧ (top_k = 0%Z → results = [])) ∧
  (∃ results,
     retrieve_with_reranking generate_embedding search self
       query book_id top_k = Return results ∧
     (top_k = 0%Z → results = [])).
Proof.
  intros Hk. split_and!; eexists; try split; try reflexivity.
  - intros ->. unfold HybridRetriever_retrieve. rewrite slice_to_zero.
    by destruct book_id as [[|]|].
  - intros ->. apply slice_to_zero.
Qed.

End Service.

Lemma top_k_below_one_returns_witness :
  (0 < 1)%Z ∧
  ∃ results,
    retrieve_hybrid Corpus.generate_embedding Corpus.search
      RankedRetrievalService_init "dragon" None 0 = Return results ∧
    (0%Z = 0%Z → results = []).
Proof.
  split; [lia|].
  apply (top_k_below_one_returns Corpus.generate_embedding Corpus.search
           RankedRetrievalService_init "dragon" None 0).
  lia.
Defined.

(** With top_k = 0 the hybrid operation returns normally; it raises
    nothing. *)
Lemma top_k_zero_not_rejected :
  retrieve_hybrid Corpus.generate_embedding Corpus.search
    RankedRetrievalService_init "dragon" None 0 = Return [] ∧
  ∀ e, retrieve_hybrid Corpus.generate_embedding Corpus.search
         RankedRetrievalService_init "dragon" None 0 ≠ Raise e.
Proof. split; [reflexivity | discriminate]. Qed.

(** ** The book filter *)

Lemma book_filter_eq (b : string) (results : list Candidate) :
  book_filter b results = filter (in_book b) results.
Proof. reflexivity. Qed.

Lemma book_filter_sublist b results : book_filter b results `sublist_of` results.
Proof. apply sublist_filter. Qed.


Lemma scope_to_book_supplied (b : string) (results : list Candidate) :
  b ≠ "" → scope_to_book (Some b) results = book_filter b results.
Proof. intros Hb. by destruct b. Qed.

Lemma scope_to_book_sublist book_id (results : list Candidate) :
  scope_to_book book_id results `sublist_of` results.
Proof.
  destruct book_id as [[|a b]|]; simpl; [done| |done].
  apply book_filter_sublist.
Qed.



Example scoped_request_returns_one :
  match retrieve_hybrid Corpus.generate_embedding Corpus.search
          RankedRetrievalService_init "dragon" (Some "B") 5 with
  | Return results => doc_id <$> results
  | Raise _ => []
  end = ["1"].
Proof. reflexivity. Qed.

Lemma hybrid_union_fusion_witness :
  (1 <= 5)%Z ∧
  NoDup (doc_id <$>
    fused_results HybridRetriever_init
      (SemanticRetriever_retrieve Corpus.generate_embedding Corpus.search
         "dragon" (5 * 2))
      (BM25Retriever_retrieve Corpus.search "dragon" (5 * 2))).
Proof.
  split; [lia|].
  apply (hybrid_union_fusion Corpus.generate_embedding Corpus.search
           HybridRetriever_init "dragon" 5).
  lia.
Defined.

(** ** Bounds of the scores *)

Lemma within_unit_None : within_unit None.
Proof. by intros v. Qed.

Lemma within_unit_Some (v : Q) : (0 <= v <= 1)%Q → within_unit (Some v).
Proof. by intros Hv ? [= <-]. Qed.

Lemma within_unit_default (s : option Q) :
  within_unit s → (0 <= from_option id 0 s <= 1)%Q.
Proof.
  intros Hs. destruct s as [v|]; simpl; [by apply Hs|].
  split; [apply Qle_refl | discriminate].
Qed.

Lemma Forall_sublist_of {A : Type} (P : A → Prop) (l1 l2 : list A) :
  l1 `sublist_of` l2 → Forall P l2 → Forall P l1.
Proof.
  intros Hsub%sublist_subseteq. rewrite !Forall_forall. intros H x Hx.
  by apply H, Hsub.
Qed.

Lemma score_or_zero_bounds get (results : list Candidate) i s :
  (∀ r, r ∈ results → within_unit (get r)) →
  score_or_zero get results i s → (0 <= s <= 1)%Q.
Proof.
  intros Hb [(r & Hin & _ & ->)|[_ ->]].
  - by apply within_unit_default, Hb.
  - split; [apply Qle_refl | discriminate].
Qed.

Lemma weighted_sum_bounds (w1 w2 s k : Q) :
  (0 <= w1)%Q → (0 <= w2)%Q → (w1 + w2 == 1)%Q →
  (0 <= s <= 1)%Q → (0 <= k <= 1)%Q →
  (0 <= w1 * s + w2 * k <= 1)%Q.
Proof. intros H1 H2 Hsum [Hs0 Hs1] [Hk0 Hk1]. split; nra. Qed.

Lemma rerank_score_bounds (query_words : gset string) (c : Candidate) :
  scores_bounded c → (0 <= rerank_score query_words c <= 1)%Q.
Proof.
  intros (_ & _ & Hf & Hs & _).
  unfold rerank_score.
  rewrite rerank_guard, length_score_guard, prior_composite_score_get.
  pose proof (term_overlap_bounds query_words
                (list_to_set (PyStr.split (PyStr.lower (content c))))) as Ht.
  assert (Hp : (0 <= prior_composite_score c <= 1)%Q).
  { unfold prior_composite_score.
    destruct (combined_score c) as [f|]; [by apply Hf|].
    destruct (semantic_score c) as [s|]; [by apply Hs|].
    split; [apply Qle_refl | discriminate]. }
  assert (Hl : (1 # 2 <= length_score (length (PyStr.split (PyStr.lower (content c)))) <= 1)%Q).
  { unfold length_score. by destruct (_ && _); split. }
  revert Ht Hp Hl.
  generalize (term_overlap query_words
                (list_to_set (PyStr.split (PyStr.lower (content c))))).
  generalize (prior_composite_score c).
  generalize (length_score (length (PyStr.split (PyStr.lower (content c))))).
  intros l p t [? ?] [? ?] [? ?]. split; lra.
Qed.

Lemma rerank_results_bounded query (results : list Candidate) :
  Forall scores_bounded results →
  Forall scores_bounded (_rerank_results query results).
Proof.
  rewrite !Forall_forall. intros Hb c' (c & -> & Hc)%elem_of_rerank_results.
  pose proof (Hb c Hc) as Hc'.
  destruct Hc' as (H1 & H2 & H3 & H4 & H5 & H6).
  unfold scores_bounded. simpl. split_and!; try done.
  apply within_unit_Some, rerank_score_bounds. by apply Hb.
Qed.

Section AddResultDocument.
Variable get : Candidate → option Q.
Variable put : Q → Scores.t → Scores.t.
Hypothesis put_document : ∀ v e, Scores.document (put v e) = Scores.document e.
Variable P : Candidate → Prop.

(** Every entry's document is one of the results the loops went over. *)
Lemma fold_add_result_document (l : list Candidate) d :
  (∀ k e, dict_get k d = Some e → P (Scores.document e)) →
  Forall P l →
  ∀ k e, dict_get k (fold_left (add_result get put) l d) = Some e →
         P (Scores.document e).
Proof.
  revert d. induction l as [|r l IH]; intros d Hd Hl; cbn [fold_left];
    [exact Hd|].
  apply Forall_cons in Hl as [Hr Hl]. apply IH; [|done].
  intros k e. rewrite add_result_get. case_decide as Hk.
  - intros [= <-]. rewrite put_document.
    destruct (dict_get k d) eqn:G; simpl; [by eapply Hd | done].
  - apply Hd.
Qed.

End AddResultDocument.

Lemma result_scores_document (P : Candidate → Prop) (sem kwd : list Candidate) k e :
  Forall P sem → Forall P kwd →
  (k, e) ∈ build_result_scores sem kwd → P (Scores.document e).
Proof.
  intros Hs Hk Hin.
  apply elem_dict_get in Hin; [|apply result_scores_NoDup].
  revert Hin. unfold build_result_scores.
  apply (fold_add_result_document bm25_score Scores.with_keyword); [done| |done].
  apply (fold_add_result_document similarity_score Scores.with_semantic);
    done.
Qed.

Lemma fused_results_bounded self (sem kwd : list Candidate) :
  (0 <= semantic_weight self)%Q → (0 <= keyword_weight self)%Q →
  (semantic_weight self + keyword_weight self == 1)%Q →
  Forall scores_bounded sem → Forall scores_bounded kwd →
  Forall scores_bounded (fused_results self sem kwd).
Proof.
  intros Hw1 Hw2 Hsum Hsem Hkwd. rewrite fused_results_perm.
  apply Forall_fmap, Forall_forall. intros [k e] Hin.
  pose proof (result_scores_document scores_bounded _ _ _ _ Hsem Hkwd Hin)
    as (H1 & H2 & _ & _ & _ & H6).
  apply result_scores_elem in Hin as (_ & Hs & Hk).
  assert (Hsb : (0 <= Scores.semantic_score e <= 1)%Q).
  { eapply score_or_zero_bounds; [|exact Hs].
    intros r Hr. rewrite Forall_forall in Hsem. by apply Hsem. }
  assert (Hkb : (0 <= Scores.keyword_score e <= 1)%Q).
  { eapply score_or_zero_bounds; [|exact Hk].
    intros r Hr. rewrite Forall_forall in Hkwd. by apply Hkwd. }
  unfold scores_bounded. simpl. split_and!; try done.
  - by apply within_unit_Some, weighted_sum_bounds.
  - by apply within_unit_Some.
  - by apply within_unit_Some.
Qed.

Section Bounds.
Variable generate_embedding : string → list Q.
Variable search : string → Z → list Hit.
(** The index answers with distances in [0, 1]. *)
Hypothesis distance_bounded :
  ∀ query n_results h, h ∈ search query n_results →
                       (0 <= hit_distance h <= 1)%Q.

Lemma semantic_results_bounded query top_k :
  Forall scores_bounded
    (SemanticRetriever_retrieve generate_embedding search query top_k).
Proof.
  unfold SemanticRetriever_retrieve.
  destruct (generate_embedding query); [constructor|].
  rewrite semantic_loop. simpl.
  apply Forall_forall. intros c (i & h & -> & Hi)%elem_of_lookup_imap.
  apply list_elem_of_lookup_2 in Hi. rewrite sort_asc_perm in Hi.
  apply distance_bounded in Hi as [Hd0 Hd1].
  unfold scores_bounded. simpl.
  split_and!; try apply within_unit_None.
  apply within_unit_Some. split; lra.
Qed.

Lemma keyword_results_bounded query top_k :
  Forall scores_bounded (BM25Retriever_retrieve search query top_k).
Proof.
  rewrite keyword_retrieve_eq.
  apply Forall_forall. intros c (i & h & -> & Hi)%elem_of_lookup_imap.
  unfold scores_bounded. simpl.
  split_and!; try apply within_unit_None.
  apply within_unit_Some, term_overlap_bounds.
Qed.

Lemma hybrid_results_bounded self query top_k :
  (0 <= semantic_weight self)%Q → (0 <= keyword_weight self)%Q →
  (semantic_weight self + keyword_weight self == 1)%Q →
  Forall scores_bounded
    (HybridRetriever_retrieve generate_embedding search self query top_k).
Proof.
  intros Hw1 Hw2 Hsum. unfold HybridRetriever_retrieve.
  eapply Forall_sublist_of; [apply slice_to_sublist|].
  apply fused_results_bounded; try done.
  - apply semantic_results_bounded.
  - apply keyword_results_bounded.
Qed.

(** C5, as the code has it.  When the index answers with distances in
    [0, 1] and the fusion weights are non-negative and sum to 1 (the
    constructor checks neither), every score of every candidate
    the semantic, keyword and hybrid retrievers, the re-ranker and the
    four public operations produce lies in [0, 1]. *)
Theorem scores_within_unit_interval (self : RankedRetrievalService)
    (query : string) (book_id : option string) (top_k : Z) :
  (0 <= semantic_weight (hybrid_retriever self))%Q →
  (0 <= keyword_weight (hybrid_retriever self))%Q →
  (semantic_weight (hybrid_retriever self) +
   keyword_weight (hybrid_retriever self) == 1)%Q →
  Forall scores_bounded
    (SemanticRetriever_retrieve generate_embedding search query top_k) ∧
  Forall scores_bounded (BM25Retriever_retrieve search query top_k) ∧
  Forall scores_bounded
    (HybridRetriever_retrieve generate_embedding search
       (hybrid_retriever self) query top_k) ∧
  Forall scores_bounded
    (_rerank_results query
       (HybridRetriever_retrieve generate_embedding search
          (hybrid_retriever self) query top_k)) ∧
  ∀ results,
    (retrieve_by_semantic_similarity generate_embedding search self
       query book_id top_k = Return results ∨
     retrieve_by_keyword_matching search self query book_id top_k =
       Return results ∨
     retrieve_hybrid generate_embedding search self query book_id top_k =
       Return results ∨
     retrieve_with_reranking generate_embedding search self
       query book_id top_k = Return results) →
    Forall scores_bounded results.
Proof.
  intros Hw1 Hw2 Hsum. split_and!.
  - apply semantic_results_bounded.
  - apply keyword_results_bounded.
  - by apply hybrid_results_bounded.
  - by apply rerank_results_bounded, hybrid_results_bounded.
  - intros results [H|[H|[H|H]]]; injection H as <-.
    + eapply Forall_sublist_of; [apply scope_to_book_sublist|].
      apply semantic_results_bounded.
    + eapply Forall_sublist_of; [apply scope_to_book_sublist|].
      apply keyword_results_bounded.
    + eapply Forall_sublist_of; [apply scope_to_book_sublist|].
      by apply hybrid_results_bounded.
    + eapply Forall_sublist_of; [apply slice_to_sublist|].
      apply rerank_results_bounded.
      eapply Forall_sublist_of; [apply scope_to_book_sublist|].
      by apply hybrid_results_bounded.
Qed.

End Bounds.

Lemma corpus_distance_bounded query n_results h :
  h ∈ Corpus.search query n_results → (0 <= hit_distance h <= 1)%Q.
Proof.
  intros Hin. apply (sublist_subseteq _ _ (sublist_take _ _)) in Hin.
  apply elem_of_cons in Hin as [->|Hin]; [by split|].
  apply list_elem_of_singleton in Hin as ->. by split.
Qed.

Lemma scores_within_unit_interval_witness :
  (0 <= 0.7)%Q ∧ (0 <= 0.3)%Q ∧ (0.7 + 0.3 == 1)%Q ∧
  Forall scores_bounded
    (HybridRetriever_retrieve Corpus.generate_embedding Corpus.search
       HybridRetriever_init "dragon" 5).
Proof.
  split_and!; [discriminate | discriminate | reflexivity |].
  refine (proj1 (proj2 (proj2
    (scores_within_unit_interval Corpus.generate_embedding Corpus.search
       corpus_distance_bounded RankedRetrievalService_init
       "dragon" None 5 _ _ _)))).
  - discriminate.
  - discriminate.
  - reflexivity.
Defined.

(** Weights 2 and -1 sum to 1 and the corpus has its distances in [0, 1],
    yet the fused score of chunk 2 is 1.2: without non-negative weights the
    bound fails. *)
Lemma negative_weight_score_above_one :
  let self := mkHybridRetriever 2 (-1) in
  let output :=
    HybridRetriever_retrieve Corpus.generate_embedding Corpus.search
      self "dragon" 5 in
  (semantic_weight self + keyword_weight self == 1)%Q ∧
  (∀ query n_results h, h ∈ Corpus.search query n_results →
                        (0 <= hit_distance h <= 1)%Q) ∧
  (λ c, (doc_id c, combined_score c)) <$> output =
    [("2", Some 1.2%Q); ("1", Some 0.0%Q)] ∧
  ¬ Forall scores_bounded output.
Proof.
  split_and!; [reflexivity | apply corpus_distance_bounded | reflexivity |].
  intros HF.
  assert (Hc : Forall within_unit
                 (combined_score <$>
                    HybridRetriever_retrieve Corpus.generate_embedding
                      Corpus.search (mkHybridRetriever 2 (-1)) "dragon" 5)).
  { apply Forall_fmap. eapply Forall_impl; [exact HF|].
    by intros c (_ & _ & H & _). }
  change (Forall within_unit [Some 1.2%Q; Some 0.0%Q]) in Hc.
  apply Forall_cons in Hc as [H _].
  destruct (H _ eq_refl) as [_ Hle]. by apply Hle.
Qed.

(** ** The re-ranking loop over the store *)

Lemma store_reranked_score_new (h : Store) (c : Candidate) (v : Q) :
  store_reranked_score (length h) v (h ++ [c]) = h ++ [set_reranked_score v c].
Proof.
  unfold store_reranked_score.
  rewrite alter_app_r_alt by done. by rewrite Nat.sub_diag.
Qed.

(** The loop appends one new object per reference, the re-ranked copy of
    the object the reference points to, and returns the new references. *)
Lemma rerank_loop_spec (query_words : gset string) (results : list ref)
    (cs : list Candidate) (acc : list ref) (h : Store) :
  Forall2 (λ r c, h !! r = Some c) results cs →
  rerank_loop query_words results acc h =
  Some (acc ++ seq (length h) (length results),
        h ++ (rerank_item query_words <$> cs)).
Proof.
  revert cs acc h. induction results as [|r results IH]; intros cs acc h Hrc.
  - apply Forall2_nil_inv_l in Hrc as ->. simpl. by rewrite !app_nil_r.
  - apply Forall2_cons_inv_l in Hrc as (c & cs' & Hr & Hrc & ->).
    cbn [rerank_loop]. unfold copy. rewrite Hr, store_reranked_score_new.
    rewrite (IH cs').
    + rewrite length_app, <- !app_assoc. simpl.
      by rewrite Nat.add_1_r.
    + eapply Forall2_impl; [exact Hrc|].
      intros r' c' Hr'. by apply lookup_app_l_Some.
Qed.

(** Reading the new references gives the new objects. *)
Lemma lookup_new_objects (h objs : Store) :
  (λ r, (h ++ objs) !! r) <$> seq (length h) (length objs) = Some <$> objs.
Proof.
  apply list_eq. intros i. rewrite !list_lookup_fmap.
  destruct (decide (i < length objs)%nat) as [Hlt|Hge].
  - rewrite lookup_seq_lt by done. simpl.
    rewrite lookup_app_r by lia.
    replace (length h + i - length h)%nat with i by lia.
    apply lookup_lt_is_Some_2 in Hlt as [c Hc]. by rewrite Hc.
  - rewrite lookup_seq_ge by lia. simpl.
    by rewrite lookup_ge_None_2 by lia.
Qed.

(** Sorting the references by the score read through them is sorting
    the objects by their score. *)
Lemma sort_new_objects (h objs : Store) :
  Forall2 (λ r c, (h ++ objs) !! r = Some c)
    (sort_desc (reranked_key_at (h ++ objs)) (seq (length h) (length objs)))
    (sort_desc reranked_key objs).
Proof.
  apply (Forall2_fmap (λ r, (h ++ objs) !! r) Some eq).
  apply list_eq_Forall2.
  change (reranked_key_at (h ++ objs))
    with (from_option reranked_key 0%Q ∘ (λ r, (h ++ objs) !! r)).
  rewrite sort_desc_map, lookup_new_objects.
  by rewrite <- (sort_desc_map Some (from_option reranked_key 0%Q)).
Qed.

Lemma rerank_results_as_map (query : string) (cs : list Candidate) :
  _rerank_results query cs =
  rerank_item (word_set query) <$>
    sort_desc (reranked_key ∘ rerank_item (word_set query)) cs.
Proof. unfold _rerank_results. by rewrite sort_desc_map. Qed.

(** C10.  Run on references [results] to the objects [cs] of a store, the
    re-ranker leaves every object of that store as it was, and returns
    references to new, pairwise distinct objects: reading them gives the
    list computed by [_rerank_results], which is, for a permutation of the
    input candidates, candidate by candidate a copy that differs only in
    the added re-ranked score. *)
Theorem reranker_copies_and_permutes (query : string) (results : list ref)
    (cs : list Candidate) (h : Store) :
  Forall2 (λ r c, h !! r = Some c) results cs →
  ∃ (out : list ref) (h' : Store) (p : list Candidate),
    _rerank_results_store query results h = Some (out, h') ∧
    (∀ l c, h !! l = Some c → h' !! l = Some c) ∧
    Forall (λ r, (length h ≤ r)%nat) out ∧
    NoDup out ∧
    Forall2 (λ r c', h' !! r = Some c') out (_rerank_results query cs) ∧
    p ≡ₚ cs ∧
    length (_rerank_results query cs) = length cs ∧
    Forall2 (λ c c', same_but_reranked c c' ∧
                     reranked_score c' = Some (reranked_formula query c))
      p (_rerank_results query cs).
Proof.
  intros Hrc.
  set (objs := rerank_item (word_set query) <$> cs).
  assert (Hlen : length results = length objs).
  { unfold objs. rewrite length_fmap. by eapply Forall2_length. }
  exists (sort_desc (reranked_key_at (h ++ objs))
            (seq (length h) (length results))), (h ++ objs),
         (sort_desc (reranked_key ∘ rerank_item (word_set query)) cs).
  split_and!.
  - unfold _rerank_results_store.
    by rewrite (rerank_loop_spec _ _ cs) by done.
  - intros l c. apply lookup_app_l_Some.
  - rewrite sort_desc_perm. apply Forall_seq. intros; lia.
  - rewrite sort_desc_perm. apply NoDup_seq.
  - rewrite Hlen. apply sort_new_objects.
  - apply sort_desc_perm.
  - unfold _rerank_results. by rewrite length_sort_desc, length_fmap.
  - rewrite rerank_results_as_map. apply Forall2_fmap_r.
    apply Forall_Forall2_diag, Forall_forall. intros c _. split.
    + apply rerank_item_same.
    + simpl. by rewrite rerank_score_formula.
Qed.

(** The two fused candidates of the corpus as the objects 0 and 1 of a
    store. *)
Lemma reranker_copies_and_permutes_witness :
  let h := HybridRetriever_retrieve Corpus.generate_embedding Corpus.search
             HybridRetriever_init "dragon" 5 in
  Forall2 (λ r c, h !! r = Some c) [0; 1]%nat h ∧
  ∃ (out : list ref) (h' : Store) (p : list Candidate),
    _rerank_results_store "dragon" [0; 1]%nat h = Some (out, h') ∧
    (∀ l c, h !! l = Some c → h' !! l = Some c) ∧
    Forall (λ r, (length h ≤ r)%nat) out ∧
    NoDup out ∧
    Forall2 (λ r c', h' !! r = Some c') out (_rerank_results "dragon" h) ∧
    p ≡ₚ h ∧
    length (_rerank_results "dragon" h) = length h ∧
    Forall2 (λ c c', same_but_reranked c c' ∧
                     reranked_score c' = Some (reranked_formula "dragon" c))
      p (_rerank_results "dragon" h).
Proof.
  assert (Hrefs :
    Forall2 (λ r c,
               HybridRetriever_retrieve Corpus.generate_embedding
                 Corpus.search HybridRetriever_init "dragon" 5 !! r = Some c)
      [0; 1]%nat
      (HybridRetriever_retrieve Corpus.generate_embedding Corpus.search
         HybridRetriever_init "dragon" 5)).
  { vm_compute. repeat constructor. }
  split; [exact Hrefs|].
  exact (reranker_copies_and_permutes "dragon" [0; 1]%nat _ _ Hrefs).
Defined.

Example store_rerank_corpus :
  let h := HybridRetriever_retrieve Corpus.generate_embedding Corpus.search
             HybridRetriever_init "dragon" 5 in
  match _rerank_results_store "dragon" [0; 1]%nat h with
  | Some (out, h') =>
      (out, (λ c, (doc_id c, reranked_score c)) <$> h')
  | None => ([], [])
  end =
  ([2; 3]%nat,
   [("1", None); ("2", None);
    ("1", Some 0.775000000%Q); ("2", Some 0.360000000%Q)]).
Proof. reflexivity. Qed.

(** ** The semantic order and the weight limit *)

Lemma StronglySorted_fmap_inv {A B : Type} (f : A → B) (R : relation B) l :
  StronglySorted R (f <$> l) → StronglySorted (λ x y, R (f x) (f y)) l.
Proof.
  induction l as [|x l IH]; [constructor|].
  rewrite fmap_cons. intros [Hs Hx]%StronglySorted_inv.
  constructor; [by apply IH|]. rewrite Forall_fmap in Hx.
  eapply Forall_impl; [exact Hx|]. by intros y Hy.
Qed.

Lemma sorted_desc_keys {A : Type} (key : A → Q) (l : list A) :
  sorted_desc key l ↔ StronglySorted (λ a b, b <= a)%Q (key <$> l).
Proof.
  split.
  - by apply StronglySorted_fmap.
  - apply StronglySorted_fmap_inv.
Qed.

Lemma similarity_keys (hs : list Hit) :
  similarity_key <$> imap semantic_candidate hs =
  (λ h, 1 - hit_distance h)%Q <$> hs.
Proof.
  rewrite fmap_imap. apply list_eq. intros i.
  rewrite list_lookup_imap, list_lookup_fmap. by destruct (hs !! i).
Qed.

Section SemanticOrder.
Variable generate_embedding : string → list Q.
Variable search : string → Z → list Hit.

(** The semantic retriever answers in descending similarity, ranked by
    position. *)
Lemma semantic_results_sorted query top_k :
  sorted_desc similarity_key
    (SemanticRetriever_retrieve generate_embedding search query top_k).
Proof.
  unfold SemanticRetriever_retrieve.
  destruct (generate_embedding query); [constructor|].
  rewrite semantic_loop. simpl.
  apply sorted_desc_keys. rewrite similarity_keys.
  eapply StronglySorted_fmap; [|apply sort_asc_sorted].
  intros x y Hxy. simpl in *. lra.
Qed.

Lemma semantic_results_ranked query top_k :
  ranked_by_position
    (SemanticRetriever_retrieve generate_embedding search query top_k).
Proof.
  unfold SemanticRetriever_retrieve.
  destruct (generate_embedding query); [by intros i c|].
  rewrite semantic_loop. simpl. intros i c.
  rewrite list_lookup_imap.
  destruct (_ !! i); [|done]. by intros [= <-].
Qed.

Lemma keyword_results_ranked query top_k :
  ranked_by_position (BM25Retriever_retrieve search query top_k).
Proof.
  rewrite keyword_retrieve_eq. intros i c. rewrite list_lookup_imap.
  destruct (_ !! i); [|done]. by intros [= <-].
Qed.

Lemma semantic_ids query top_k :
  generate_embedding query ≠ [] →
  doc_id <$> SemanticRetriever_retrieve generate_embedding search query top_k
  = hit_id <$> sort_asc hit_distance (search query top_k).
Proof.
  intros Hne. rewrite semantic_retrieve_eq by done. rewrite fmap_imap.
  apply list_eq. intros i.
  rewrite list_lookup_imap, list_lookup_fmap. by destruct (_ !! i).
Qed.

End SemanticOrder.

Lemma dict_update_snoc_fresh {V : Type} (f : V → V) k (v : V) d :
  k ∉ keys d → dict_update f k (d ++ [(k, v)]) = d ++ [(k, f v)].
Proof.
  unfold keys. induction d as [|[k' v'] d IH]; simpl; intros Hk.
  - by rewrite decide_True.
  - apply not_elem_of_cons in Hk as [Hne Hk].
    rewrite decide_False by done. f_equal. by apply IH.
Qed.

Lemma dict_update_view {V W : Type} (g : string * V → W) (f : V → V) k d :
  (∀ k' v, g (k', f v) = g (k', v)) → g <$> dict_update f k d = g <$> d.
Proof.
  intros Hg. induction d as [|[k' v'] d IH]; simpl; [done|].
  case_decide; simpl; [by rewrite Hg|]. f_equal. apply IH.
Qed.

Lemma keys_semantic_view (d : list (string * Scores.t)) :
  keys d = (semantic_view <$> d).*1.
Proof. unfold keys. rewrite <- list_fmap_compose. by apply list_fmap_ext. Qed.

(** With pairwise distinct identities the first loop makes one entry per
    semantic result, in their order. *)
Lemma semantic_loop_distinct (sem : list Candidate) :
  NoDup (doc_id <$> sem) →
  semantic_view <$> fold_left add_semantic sem [] =
  (λ r, (doc_id r, similarity_key r)) <$> sem.
Proof.
  induction sem as [|r sem IH] using rev_ind; intros Hnd; [done|].
  rewrite fmap_app in Hnd. apply NoDup_app in Hnd as (Hnd & Hr & _).
  specialize (IH Hnd).
  assert (Hfresh : doc_id r ∉ keys (fold_left add_semantic sem [])).
  { rewrite keys_semantic_view, IH, <- list_fmap_compose.
    intros Hin. apply (Hr _ Hin). simpl. by left. }
  rewrite fold_left_app. cbn [fold_left]. unfold add_semantic at 1.
  rewrite (proj2 (dict_mem_false _ _) Hfresh).
  rewrite dict_update_snoc_fresh by done.
  by rewrite !fmap_app, IH.
Qed.

(** The second loop changes neither the keys, nor their order, nor the
    semantic scores when every keyword result is already an entry. *)
Lemma keyword_loop_view (kwd : list Candidate) (d : list (string * Scores.t)) :
  Forall (λ r, doc_id r ∈ keys d) kwd →
  semantic_view <$> fold_left add_keyword kwd d = semantic_view <$> d.
Proof.
  revert d. induction kwd as [|r kwd IH]; intros d Hall; cbn [fold_left];
    [done|].
  apply Forall_cons in Hall as [Hr Hall].
  assert (Hstep : semantic_view <$> add_keyword d r = semantic_view <$> d).
  { unfold add_keyword. rewrite (proj2 (dict_mem_keys _ _) Hr).
    by apply dict_update_view. }
  rewrite IH; [done|].
  eapply Forall_impl; [exact Hall|]. intros r' Hr'. simpl in *.
  by rewrite keys_semantic_view, Hstep, <- keys_semantic_view.
Qed.

(** With weights 1 and 0, pairwise distinct identities and no keyword
    result outside the semantic results, fusion keeps the semantic
    order. *)
Lemma fused_order_semantic_limit self (sem kwd : list Candidate) :
  (semantic_weight self == 1)%Q → (keyword_weight self == 0)%Q →
  NoDup (doc_id <$> sem) →
  sorted_desc similarity_key sem →
  (∀ i, i ∈ doc_id <$> kwd → i ∈ doc_id <$> sem) →
  doc_id <$> fused_results self sem kwd = doc_id <$> sem.
Proof.
  intros Hsw Hkw Hnd Hsorted Hsub.
  pose proof (semantic_loop_distinct sem Hnd) as H1.
  assert (H2 : semantic_view <$> build_result_scores sem kwd =
               (λ r, (doc_id r, similarity_key r)) <$> sem).
  { unfold build_result_scores. rewrite keyword_loop_view; [done|].
    apply Forall_forall. intros r Hr.
    rewrite keys_semantic_view, H1, <- list_fmap_compose.
    apply Hsub. by apply list_elem_of_fmap_2. }
  assert (Hkeys : keys (build_result_scores sem kwd) = doc_id <$> sem).
  { by rewrite keys_semantic_view, H2, <- list_fmap_compose. }
  assert (Hs : sorted_desc combined_key
                 (combine self <$> build_result_scores sem kwd)).
  { apply (StronglySorted_fmap _
             (λ x y, Scores.semantic_score y.2 <= Scores.semantic_score x.2)%Q).
    - intros x y Hxy. unfold combined_key. simpl.
      rewrite Hsw, Hkw. lra.
    - apply (StronglySorted_fmap_inv (Scores.semantic_score ∘ snd)
               (λ a b, b <= a)%Q).
      replace ((Scores.semantic_score ∘ snd) <$> build_result_scores sem kwd)
        with ((semantic_view <$> build_result_scores sem kwd).*2)
        by (by rewrite <- list_fmap_compose).
      rewrite H2, <- list_fmap_compose.
      exact (proj1 (sorted_desc_keys similarity_key sem) Hsorted). }
  unfold fused_results. rewrite sort_desc_fixpoint by done.
  by rewrite combined_ids.
Qed.

Section WeightLimit.
Variable generate_embedding : string → list Q.
Variable search : string → Z → list Hit.

(** X8.  The semantic half of the fusion weight limit: with weights 1 and
    0, a non-empty embedding and an index that answers with pairwise
    distinct identities, the hybrid retriever answers with the first top_k
    of the semantic order over the same pool. *)
Lemma hybrid_semantic_limit self query top_k :
  (semantic_weight self == 1)%Q → (keyword_weight self == 0)%Q →
  generate_embedding query ≠ [] →
  NoDup (hit_id <$> search query (top_k * 2)) →
  (0 <= top_k)%Z →
  doc_id <$> HybridRetriever_retrieve generate_embedding search self
               query top_k =
  take (Z.to_nat top_k)
    (doc_id <$> SemanticRetriever_retrieve generate_embedding search
                  query (top_k * 2)).
Proof.
  intros Hsw Hkw Hne Hnd Hk. unfold HybridRetriever_retrieve.
  rewrite slice_to_nonneg by done. rewrite fmap_take. f_equal.
  apply fused_order_semantic_limit; try done.
  - rewrite semantic_ids by done. by rewrite sort_asc_perm.
  - apply semantic_results_sorted.
  - intros i. rewrite keyword_ids_in_index_order, semantic_ids by done.
    by rewrite sort_asc_perm.
Qed.

End WeightLimit.

(** * Further properties of the retrievers *)

(** ** Sorting, filtering and ties *)

Section SortFilter.
Context {A : Type} (key : A → Q).

Lemma insert_desc_front x l :
  Forall (λ z, key z <= key x)%Q l → insert_desc key x l = x :: l.
Proof.
  destruct l as [|y l]; [done|]. intros [Hy _]%Forall_cons. simpl.
  apply Qle_bool_iff in Hy. by rewrite Hy.
Qed.

Context (P : A → Prop) `{!∀ x, Decision (P x)}.

Lemma filter_insert_desc x l :
  sorted_desc key l →
  filter P (insert_desc key x l) =
  if decide (P x) then insert_desc key x (filter P l) else filter P l.
Proof.
  unfold sorted_desc. induction l as [|y l IH]; intros Hs.
  - simpl. rewrite filter_cons, filter_nil. by case_decide.
  - apply StronglySorted_inv in Hs as [Hs Hy]. simpl.
    destruct (Qle_bool (key y) (key x)) eqn:E.
    + rewrite (filter_cons P x). case_decide as HP; [|done].
      rewrite insert_desc_front; [done|].
      apply Qle_bool_iff in E.
      apply Forall_forall. intros z [_ Hz]%list_elem_of_filter.
      apply elem_of_cons in Hz as [->|Hz]; [done|].
      rewrite Forall_forall in Hy. eapply Qle_trans; [by apply Hy|done].
    + rewrite (filter_cons P y), IH by done.
      rewrite (filter_cons P y).
      destruct (decide (P y)), (decide (P x)); simpl; try done.
      by rewrite E.
Qed.

(** Filtering a sorted list and sorting the filtered list agree. *)
Lemma filter_sort_desc l :
  filter P (sort_desc key l) = sort_desc key (filter P l).
Proof.
  induction l as [|x l IH]; [done|]. simpl.
  rewrite filter_insert_desc by apply sort_desc_sorted.
  rewrite filter_cons, IH. by case_decide.
Qed.

End SortFilter.

Section Stability.
Context {A : Type} (key : A → Q).

Lemma filter_key_insert_desc k x l :
  filter (with_key key k) (insert_desc key x l) =
  filter (with_key key k) (x :: l).
Proof.
  induction l as [|y l IH]; [done|]. simpl.
  destruct (Qle_bool (key y) (key x)) eqn:E; [done|].
  rewrite (filter_cons _ y), IH, !(filter_cons _ x), (filter_cons _ y).
  destruct (decide (with_key key k x)) as [Hx|Hx]; [|done].
  destruct (decide (with_key key k y)) as [Hy|Hy]; [|done].
  unfold with_key in *. exfalso.
  assert (Hle : (key y <= key x)%Q) by (rewrite Hx, Hy; apply Qle_refl).
  apply Qle_bool_iff in Hle. congruence.
Qed.

(** The sort is stable: candidates with equal keys keep their order. *)
Lemma sort_desc_stable k l :
  filter (with_key key k) (sort_desc key l) = filter (with_key key k) l.
Proof.
  induction l as [|x l IH]; [done|]. simpl.
  by rewrite filter_key_insert_desc, !(filter_cons _ x), IH.
Qed.

End Stability.

Lemma sorted_desc_sublist {A : Type} (key : A → Q) (l1 l2 : list A) :
  l1 `sublist_of` l2 → sorted_desc key l2 → sorted_desc key l1.
Proof.
  unfold sorted_desc. induction 1 as [|x l1 l2 Hsub IH|x l1 l2 Hsub IH].
  - done.
  - intros [Hs Hx]%StronglySorted_inv. constructor; [by apply IH|].
    by eapply Forall_sublist_of.
  - intros [Hs _]%StronglySorted_inv. by apply IH.
Qed.

(** ** The semantic retriever *)

Section SemanticFacts.
Variable generate_embedding : string → list Q.
Variable search : string → Z → list Hit.

Lemma semantic_results_from_hits query top_k c :
  c ∈ SemanticRetriever_retrieve generate_embedding search query top_k →
  ∃ h, h ∈ search query top_k ∧ doc_id c = hit_id h ∧
       content c = hit_content h ∧ metadata c = hit_metadata h ∧
       similarity_score c = Some (1 - hit_distance h)%Q.
Proof.
  unfold SemanticRetriever_retrieve.
  destruct (generate_embedding query); [by intros ?%elem_of_nil|].
  rewrite semantic_loop. simpl.
  intros (i & h & -> & Hi)%elem_of_lookup_imap.
  apply list_elem_of_lookup_2 in Hi. rewrite sort_asc_perm in Hi.
  by exists h.
Qed.

(** X1.  The semantic retriever answers in descending similarity, numbers
    its candidates 1, 2, ... in that order, and every candidate is a hit of
    the index with similarity 1 - distance. *)
Theorem semantic_results_ordered_ranked (query : string) (top_k : Z) :
  let results :=
    SemanticRetriever_retrieve generate_embedding search query top_k in
  sorted_desc similarity_key results ∧
  ranked_by_position results ∧
  Forall (λ c, ∃ h, h ∈ search query top_k ∧ doc_id c = hit_id h ∧
                    content c = hit_content h ∧
                    metadata c = hit_metadata h ∧
                    similarity_score c = Some (1 - hit_distance h)%Q)
    results.
Proof.
  split_and!.
  - apply semantic_results_sorted.
  - apply semantic_results_ranked.
  - apply Forall_forall. intros c. apply semantic_results_from_hits.
Qed.

(** X2.  When the query has an embedding, the semantic retriever returns
    one candidate per hit of the index: as many candidates as hits, the
    same identities, and, when the index already answers in ascending
    distance, in the order of the index. *)
Theorem semantic_results_cover_hits (query : string) (top_k : Z) :
  generate_embedding query ≠ [] →
  let results :=
    SemanticRetriever_retrieve generate_embedding search query top_k in
  length results = length (search query top_k) ∧
  doc_id <$> results ≡ₚ hit_id <$> search query top_k ∧
  (sorted_asc hit_distance (search query top_k) →
   doc_id <$> results = hit_id <$> search query top_k).
Proof.
  intros Hne results. unfold results. split_and!.
  - rewrite semantic_retrieve_eq by done.
    by rewrite length_imap, sort_asc_perm.
  - rewrite semantic_ids by done. by rewrite sort_asc_perm.
  - intros Hs. rewrite semantic_ids by done.
    by rewrite sort_asc_fixpoint.
Qed.

End SemanticFacts.

Lemma semantic_results_cover_hits_witness :
  Corpus.generate_embedding "dragon" ≠ [] ∧
  length (SemanticRetriever_retrieve Corpus.generate_embedding Corpus.search
            "dragon" 5) = length (Corpus.search "dragon" 5).
Proof.
  split; [discriminate|].
  apply (semantic_results_cover_hits Corpus.generate_embedding Corpus.search
           "dragon" 5).
  discriminate.
Defined.

(** ** The keyword retriever *)

Lemma ratio_one (n m : nat) : (0 < m)%nat → (ratio n m == 1)%Q ↔ n = m.
Proof.
  intros Hm. unfold ratio.
  assert (Hb : ¬ (inject_Z (Z.of_nat m) == 0)%Q).
  { change 0%Q with (inject_Z 0). rewrite inject_Z_injective. lia. }
  split.
  - intros H. apply Nat2Z.inj, inject_Z_injective.
    rewrite <- (Qmult_div_r _ _ Hb), H. apply Qmult_1_r.
  - intros ->. unfold Qdiv. by apply Qmult_inv_r.
Qed.

Lemma ratio_zero (n m : nat) : (0 < m)%nat → (ratio n m == 0)%Q ↔ n = 0%nat.
Proof.
  intros Hm. unfold ratio.
  assert (Hb : ¬ (inject_Z (Z.of_nat m) == 0)%Q).
  { change 0%Q with (inject_Z 0). rewrite inject_Z_injective. lia. }
  split.
  - intros H. apply Nat2Z.inj, inject_Z_injective.
    rewrite <- (Qmult_div_r _ _ Hb), H. simpl. apply Qmult_0_r.
  - intros ->. simpl. unfold Qdiv. apply Qmult_0_l.
Qed.

Lemma term_overlap_one (query_words content_words : gset string) :
  query_words ≠ ∅ →
  (term_overlap query_words content_words == 1)%Q ↔
  query_words ⊆ content_words.
Proof.
  intros Hne. rewrite <- rerank_guard, decide_False by done.
  assert (Hsz : (0 < size query_words)%nat).
  { destruct (size query_words) eqn:E; [|lia].
    apply size_empty_inv in E. by apply leibniz_equiv in E. }
  rewrite ratio_one by done. split.
  - intros Heq.
    assert (query_words ∩ content_words = query_words) as <-.
    { apply set_subseteq_size_eq; [apply intersection_subseteq_l | lia]. }
    apply intersection_subseteq_r.
  - intros Hsub. by rewrite subseteq_intersection_1_L.
Qed.

Lemma term_overlap_zero (query_words content_words : gset string) :
  query_words ≠ ∅ →
  (term_overlap query_words content_words == 0)%Q ↔
  query_words ∩ content_words = ∅.
Proof.
  intros Hne. rewrite <- rerank_guard, decide_False by done.
  assert (Hsz : (0 < size query_words)%nat).
  { destruct (size query_words) eqn:E; [|lia].
    apply size_empty_inv in E. by apply leibniz_equiv in E. }
  rewrite ratio_zero by done. rewrite size_empty_iff.
  split; [apply leibniz_equiv | by intros ->].
Qed.

Section KeywordFacts.
Variable search : string → Z → list Hit.

(** X3.  For a query with at least one word, the keyword score of a
    candidate is 1 exactly when every query word occurs in its content
    and 0 exactly when none does. *)
Theorem keyword_score_extremes (query : string) (top_k : Z) :
  word_set query ≠ ∅ →
  Forall (λ c, ∃ s, bm25_score c = Some s ∧
                ((s == 1)%Q ↔ word_set query ⊆ word_set (content c)) ∧
                ((s == 0)%Q ↔ word_set query ∩ word_set (content c) = ∅))
    (BM25Retriever_retrieve search query top_k).
Proof.
  intros Hne. rewrite keyword_retrieve_eq.
  apply Forall_forall. intros c (i & h & -> & _)%elem_of_lookup_imap.
  eexists. split; [reflexivity|]. simpl. split.
  - by apply term_overlap_one.
  - by apply term_overlap_zero.
Qed.

(** X4.  The keyword retriever returns one candidate per hit of the index,
    in the order of the index and numbered 1, 2, ... in that order; each
    carries the content and metadata of its hit and the overlap ratio of
    the query words as its score. *)
Theorem keyword_results_follow_index (query : string) (top_k : Z) :
  let results := BM25Retriever_retrieve search query top_k in
  Forall2 (λ h c, doc_id c = hit_id h ∧ content c = hit_content h ∧
                  metadata c = hit_metadata h ∧
                  bm25_score c =
                    Some (term_overlap (word_set query)
                                       (word_set (hit_content h))))
    (search query top_k) results ∧
  ranked_by_position results.
Proof.
  intros results. split.
  - unfold results. rewrite keyword_retrieve_eq.
    apply Forall2_same_length_lookup. split; [by rewrite length_imap|].
    intros i h c Hh. rewrite list_lookup_imap, Hh. by intros [= <-].
  - apply keyword_results_ranked.
Qed.

End KeywordFacts.

Lemma keyword_score_extremes_witness :
  word_set "dragon" ≠ ∅ ∧
  Forall (λ c, ∃ s, bm25_score c = Some s ∧
                ((s == 1)%Q ↔ word_set "dragon" ⊆ word_set (content c)) ∧
                ((s == 0)%Q ↔ word_set "dragon" ∩ word_set (content c) = ∅))
    (BM25Retriever_retrieve Corpus.search "dragon" 5).
Proof.
  assert (Hne : word_set "dragon" ≠ ∅).
  { intros H. apply (f_equal size) in H. vm_compute in H. discriminate. }
  split; [exact Hne|].
  exact (keyword_score_extremes Corpus.search "dragon" 5 Hne).
Defined.

(** ** The hybrid retriever *)

Lemma fused_ids_perm self (sem kwd : list Candidate) :
  doc_id <$> fused_results self sem kwd ≡ₚ keys (build_result_scores sem kwd).
Proof. rewrite fused_results_perm. by rewrite combined_ids. Qed.

Lemma fused_ids_NoDup self (sem kwd : list Candidate) :
  NoDup (doc_id <$> fused_results self sem kwd).
Proof. rewrite fused_ids_perm. apply result_scores_NoDup. Qed.

Lemma fused_results_elem self (sem kwd : list Candidate) c :
  c ∈ fused_results self sem kwd ↔
  ∃ item, c = combine self item ∧ item ∈ build_result_scores sem kwd.
Proof. by rewrite fused_results_perm, list_elem_of_fmap. Qed.

Section AddResultSource.
Variable get : Candidate → option Q.
Variable put : Q → Scores.t → Scores.t.
Hypothesis put_document : ∀ v e, Scores.document (put v e) = Scores.document e.

(** An entry keeps the document it was created with. *)
Lemma fold_add_result_keeps_document (l : list Candidate) d k e0 :
  dict_get k d = Some e0 →
  ∃ e, dict_get k (fold_left (add_result get put) l d) = Some e ∧
       Scores.document e = Scores.document e0.
Proof.
  revert d e0. induction l as [|r l IH]; intros d e0 Hd; cbn [fold_left].
  - by exists e0.
  - destruct (decide (k = doc_id r)) as [Hk|Hk].
    + edestruct (IH (add_result get put d r)) as (e & He & Hdoc).
      { rewrite add_result_get, decide_True by done. reflexivity. }
      exists e. split; [done|]. rewrite Hdoc, put_document. by rewrite Hd.
    + apply IH. by rewrite add_result_get, decide_False.
Qed.

(** A new entry is created from a result of the loop. *)
Lemma fold_add_result_new_document (l : list Candidate) d k e :
  dict_get k d = None →
  dict_get k (fold_left (add_result get put) l d) = Some e →
  Scores.document e ∈ l.
Proof.
  revert d. induction l as [|r l IH]; intros d Hd; cbn [fold_left].
  - by rewrite Hd.
  - destruct (decide (k = doc_id r)) as [Hk|Hk].
    + intros He.
      edestruct (fold_add_result_keeps_document l (add_result get put d r) k)
        as (e' & He' & Hdoc).
      { rewrite add_result_get, decide_True by done. reflexivity. }
      rewrite He in He'. injection He' as <-.
      rewrite Hdoc, put_document, Hd. simpl. by left.
    + intros He. right. apply (IH (add_result get put d r)); [|done].
      by rewrite add_result_get, decide_False.
Qed.

End AddResultSource.

Lemma fold_add_keyword_keeps_document (l : list Candidate) d k e0 :
  dict_get k d = Some e0 →
  ∃ e, dict_get k (fold_left add_keyword l d) = Some e ∧
       Scores.document e = Scores.document e0.
Proof.
  exact (fold_add_result_keeps_document bm25_score Scores.with_keyword
           (λ _ _, eq_refl) l d k e0).
Qed.

Lemma fold_add_keyword_new_document (l : list Candidate) d k e :
  dict_get k d = None →
  dict_get k (fold_left add_keyword l d) = Some e →
  Scores.document e ∈ l.
Proof.
  exact (fold_add_result_new_document bm25_score Scores.with_keyword
           (λ _ _, eq_refl) l d k e).
Qed.

Lemma fold_add_semantic_new_document (l : list Candidate) d k e :
  dict_get k d = None →
  dict_get k (fold_left add_semantic l d) = Some e →
  Scores.document e ∈ l.
Proof.
  exact (fold_add_result_new_document similarity_score Scores.with_semantic
           (λ _ _, eq_refl) l d k e).
Qed.

(** The base of a fused candidate is the semantic result when the
    semantic retrieval has the identity, a keyword result otherwise. *)
Lemma result_scores_source (sem kwd : list Candidate) k e :
  (k, e) ∈ build_result_scores sem kwd →
  (k ∈ doc_id <$> sem → Scores.document e ∈ sem) ∧
  (k ∉ doc_id <$> sem → Scores.document e ∈ kwd).
Proof.
  intros Hin. apply elem_dict_get in Hin; [|apply result_scores_NoDup].
  unfold build_result_scores in Hin.
  destruct (dict_get k (fold_left add_semantic sem [])) as [e1|] eqn:G.
  - assert (Hk : k ∈ doc_id <$> sem).
    { apply dict_get_elem, (list_elem_of_fmap_2 fst) in G.
      apply fold_add_semantic_keys in G as [?%elem_of_nil|?]; done. }
    split; [intros _|done].
    destruct (fold_add_keyword_keeps_document kwd _ k e1 G)
      as (e' & He' & Hdoc).
    rewrite Hin in He'. injection He' as <-. rewrite Hdoc.
    by apply (fold_add_semantic_new_document sem [] k e1).
  - assert (Hk : k ∉ doc_id <$> sem).
    { apply dict_get_None in G. intros Hk. apply G.
      apply fold_add_semantic_keys. by right. }
    split; [done|intros _].
    by apply (fold_add_keyword_new_document kwd _ k e G).
Qed.

Lemma combine_based_on self item :
  based_on (Scores.document item.2) (combine self item).
Proof. by repeat split. Qed.

Section HybridOutput.
Variable generate_embedding : string → list Q.
Variable search : string → Z → list Hit.

(** X5.  For every top_k the hybrid retriever answers in descending fused
    score, with at most one candidate per identity, and every candidate
    carries the three keys the fusion writes. *)
Theorem hybrid_results_sorted_distinct (self : HybridRetriever)
    (query : string) (top_k : Z) :
  let results :=
    HybridRetriever_retrieve generate_embedding search self query top_k in
  sorted_desc combined_key results ∧
  NoDup (doc_id <$> results) ∧
  Forall (λ c, is_Some (combined_score c) ∧ is_Some (semantic_score c) ∧
               is_Some (keyword_score c)) results.
Proof.
  intros results. unfold results, HybridRetriever_retrieve. split_and!.
  - eapply sorted_desc_sublist; [apply slice_to_sublist|].
    apply fused_results_sorted.
  - eapply sublist_NoDup; [apply fused_ids_NoDup|].
    apply fmap_sublist, slice_to_sublist.
  - eapply Forall_sublist_of; [apply slice_to_sublist|].
    apply Forall_forall. intros c (item & -> & _)%fused_results_elem.
    by split_and!; eexists.
Qed.

(** X6.  A fused candidate is a copy of a sub-retrieval result with the
    same identity: of a semantic result whenever the semantic retrieval
    returned the identity, of a keyword result otherwise.  Content,
    metadata, rank and the sub-retrieval's own score are those of that
    result. *)
Theorem fused_candidate_source (self : HybridRetriever)
    (semantic_results keyword_results : list Candidate) :
  Forall (λ c,
    (doc_id c ∈ doc_id <$> semantic_results →
     ∃ r, r ∈ semantic_results ∧ based_on r c) ∧
    (doc_id c ∉ doc_id <$> semantic_results →
     ∃ r, r ∈ keyword_results ∧ based_on r c))
    (fused_results self semantic_results keyword_results).
Proof.
  apply Forall_forall. intros c ([k e] & -> & Hin)%fused_results_elem.
  pose proof (result_scores_elem _ _ _ _ Hin) as (Hid & _).
  apply result_scores_source in Hin as [Hsem Hkwd].
  rewrite combine_doc_id. simpl. rewrite Hid. split; intros Hk.
  - exists (Scores.document e). split; [by apply Hsem|].
    apply (combine_based_on self (k, e)).
  - exists (Scores.document e). split; [by apply Hkwd|].
    apply (combine_based_on self (k, e)).
Qed.

(** X7.  When the query has no embedding the hybrid retriever falls back
    on the keyword retrieval: the fused identities are those of the
    keyword results, and every candidate has semantic score 0 and fused
    score keyword_weight × its keyword score. *)
Theorem hybrid_keyword_fallback (self : HybridRetriever)
    (query : string) (top_k : Z) :
  generate_embedding query = [] →
  let keyword_results := BM25Retriever_retrieve search query (top_k * 2) in
  (∀ i, i ∈ doc_id <$> fused_results self [] keyword_results ↔
        i ∈ doc_id <$> keyword_results) ∧
  HybridRetriever_retrieve generate_embedding search self query top_k =
    slice_to (fused_results self [] keyword_results) top_k ∧
  Forall (λ c, semantic_score c = Some 0%Q ∧
               ∃ r k, r ∈ keyword_results ∧ based_on r c ∧
                      score_or_zero bm25_score keyword_results (doc_id c) k ∧
                      keyword_score c = Some k ∧
                      combined_score c =
                        Some (semantic_weight self * 0 +
                              keyword_weight self * k)%Q)
    (HybridRetriever_retrieve generate_embedding search self query top_k).
Proof.
  intros He kwd.
  assert (Hout :
    HybridRetriever_retrieve generate_embedding search self query top_k =
    slice_to (fused_results self [] kwd) top_k).
  { unfold HybridRetriever_retrieve.
    by rewrite semantic_retrieve_no_embedding. }
  split_and!; [|done|].
  - intros i. rewrite fused_ids_perm, result_scores_keys.
    split; [intros [?%elem_of_nil|?]; done | by right].
  - rewrite Hout. eapply Forall_sublist_of; [apply slice_to_sublist|].
    apply Forall_forall. intros c ([k e] & -> & Hin)%fused_results_elem.
    pose proof (result_scores_elem _ _ _ _ Hin) as (Hid & Hs & Hk).
    apply result_scores_source in Hin as [_ Hkwd].
    assert (H0 : Scores.semantic_score e = 0%Q).
    { destruct Hs as [(r & ?%elem_of_nil & _)|[_ ->]]; done. }
    simpl. rewrite H0. split; [done|].
    exists (Scores.document e), (Scores.keyword_score e).
    rewrite Hid. split_and!; try done.
    apply Hkwd. by intros ?%elem_of_nil.
Qed.

End HybridOutput.

Lemma hybrid_keyword_fallback_witness :
  Corpus.no_embedding "dragon" = [] ∧
  doc_id <$> HybridRetriever_retrieve Corpus.no_embedding Corpus.search
               HybridRetriever_init "dragon" 5 = ["1"; "2"] ∧
  Forall (λ c, semantic_score c = Some 0%Q ∧
               ∃ r k, r ∈ BM25Retriever_retrieve Corpus.search "dragon" (5 * 2) ∧
                      based_on r c ∧
                      score_or_zero bm25_score
                        (BM25Retriever_retrieve Corpus.search "dragon" (5 * 2))
                        (doc_id c) k ∧
                      keyword_score c = Some k ∧
                      combined_score c =
                        Some (semantic_weight HybridRetriever_init * 0 +
                              keyword_weight HybridRetriever_init * k)%Q)
    (HybridRetriever_retrieve Corpus.no_embedding Corpus.search
       HybridRetriever_init "dragon" 5).
Proof.
  split_and!; [reflexivity | reflexivity |].
  exact (proj2 (proj2
    (hybrid_keyword_fallback Corpus.no_embedding Corpus.search
       HybridRetriever_init "dragon" 5 eq_refl))).
Defined.

Lemma hybrid_semantic_limit_witness :
  (semantic_weight (mkHybridRetriever 1 0) == 1)%Q ∧
  (keyword_weight (mkHybridRetriever 1 0) == 0)%Q ∧
  Corpus.generate_embedding "dragon" ≠ [] ∧
  NoDup (hit_id <$> Corpus.search "dragon" (5 * 2)) ∧
  (0 <= 5)%Z ∧
  doc_id <$> HybridRetriever_retrieve Corpus.generate_embedding Corpus.search
               (mkHybridRetriever 1 0) "dragon" 5 =
  take (Z.to_nat 5)
    (doc_id <$> SemanticRetriever_retrieve Corpus.generate_embedding
                  Corpus.search "dragon" (5 * 2)).
Proof.
  assert (Hnd : NoDup (hit_id <$> Corpus.search "dragon" (5 * 2))).
  { vm_compute. apply NoDup_cons_2; [|apply NoDup_singleton].
    intros Hin. apply list_elem_of_singleton in Hin. discriminate. }
  split_and!; [reflexivity | reflexivity | discriminate | exact Hnd | lia |].
  apply (hybrid_semantic_limit Corpus.generate_embedding Corpus.search
           (mkHybridRetriever 1 0) "dragon" 5).
  - reflexivity.
  - reflexivity.
  - discriminate.
  - exact Hnd.
  - lia.
Defined.

(** ** The re-ranker *)

Lemma rerank_item_in_book b query_words c :
  in_book b (rerank_item query_words c) ↔ in_book b c.
Proof. done. Qed.

Lemma book_filter_rerank_items b query_words (l : list Candidate) :
  book_filter b (rerank_item query_words <$> l) =
  rerank_item query_words <$> book_filter b l.
Proof.
  rewrite !book_filter_eq. induction l as [|x l IH]; [done|].
  rewrite fmap_cons. destruct (decide (in_book b x)) as [Hx|Hx].
  - rewrite !filter_cons_True by done. rewrite fmap_cons. by f_equal.
  - by rewrite !filter_cons_False by done.
Qed.

Lemma rerank_item_idem query_words c :
  rerank_item query_words (rerank_item query_words c) =
  rerank_item query_words c.
Proof. reflexivity. Qed.

Lemma rerank_results_sorted query (results : list Candidate) :
  sorted_desc reranked_key (_rerank_results query results).
Proof. apply sort_desc_sorted. Qed.

Lemma rerank_score_window (query_words : gset string) (c : Candidate) :
  (0.5 * prior_composite_score c + 0.15 <= rerank_score query_words c)%Q ∧
  (rerank_score query_words c <= 0.5 * prior_composite_score c + 0.5)%Q.
Proof.
  unfold rerank_score.
  rewrite rerank_guard, length_score_guard, prior_composite_score_get.
  pose proof (term_overlap_bounds query_words
                (list_to_set (PyStr.split (PyStr.lower (content c))))) as Ht.
  assert (Hl : (0.5 <= length_score
                        (length (PyStr.split (PyStr.lower (content c))))
                <= 1)%Q).
  { unfold length_score. by destruct (_ && _); split. }
  revert Ht Hl.
  generalize (term_overlap query_words
                (list_to_set (PyStr.split (PyStr.lower (content c))))).
  generalize (length_score (length (PyStr.split (PyStr.lower (content c))))).
  generalize (prior_composite_score c).
  intros p l t [? ?] [? ?]. split; lra.
Qed.

(** X9.  The re-ranker answers in descending re-ranked score, and every
    candidate it returns carries that score. *)
Theorem rerank_results_sorted_scored (query : string)
    (results : list Candidate) :
  sorted_desc reranked_key (_rerank_results query results) ∧
  Forall (λ c, is_Some (reranked_score c)) (_rerank_results query results).
Proof.
  split; [apply rerank_results_sorted|].
  apply Forall_forall. intros c' (c & -> & _)%elem_of_rerank_results.
  by eexists.
Qed.

(** X10.  Filtering by book and re-ranking commute: re-ranking the
    candidates of a book gives the candidates of that book in the
    re-ranked list, in the same order. *)
Theorem rerank_book_filter_commute (query : string) (b : string)
    (results : list Candidate) :
  _rerank_results query (book_filter b results) =
  book_filter b (_rerank_results query results).
Proof.
  unfold _rerank_results.
  rewrite <- book_filter_rerank_items, !book_filter_eq.
  by rewrite filter_sort_desc.
Qed.

(** X13.  Ties keep their order: the candidates that share a re-ranked
    score come out of the re-ranker in the order they went in, and the
    candidates that share a fused score come out of the fusion in the
    order their identities were first seen (semantic results first). *)
Theorem ties_keep_input_order (query : string) (results : list Candidate)
    (self : HybridRetriever) (semantic_results keyword_results : list Candidate)
    (k : Q) :
  filter (with_key reranked_key k) (_rerank_results query results) =
  filter (with_key reranked_key k)
    (rerank_item (word_set query) <$> results) ∧
  filter (with_key combined_key k)
    (fused_results self semantic_results keyword_results) =
  filter (with_key combined_key k)
    (combine self <$> build_result_scores semantic_results keyword_results).
Proof. split; apply sort_desc_stable. Qed.

(** X16.  Whatever the query and the content, re-ranking moves a
    candidate's score into the window from 0.5 × prior + 0.15 to
    0.5 × prior + 0.5, where prior is the fused score, else the semantic
    score, else 0. *)
Theorem reranked_score_window (query : string) (results : list Candidate) :
  Forall (λ c', ∃ c v, c ∈ results ∧ same_but_reranked c c' ∧
                       reranked_score c' = Some v ∧
                       (0.5 * prior_composite_score c + 0.15 <= v)%Q ∧
                       (v <= 0.5 * prior_composite_score c + 0.5)%Q)
    (_rerank_results query results).
Proof.
  apply Forall_forall. intros c' (c & -> & Hc)%elem_of_rerank_results.
  exists c, (rerank_score (word_set query) c).
  pose proof (rerank_score_window (word_set query) c) as [? ?].
  by split_and!.
Qed.

(** X15.  Re-ranking is idempotent: re-ranking a list that the re-ranker
    returned for the same query gives that list again. *)
Theorem rerank_results_idempotent (query : string) (results : list Candidate) :
  _rerank_results query (_rerank_results query results) =
  _rerank_results query results.
Proof.
  unfold _rerank_results at 1.
  assert (Hid : rerank_item (word_set query) <$> _rerank_results query results
                = _rerank_results query results).
  { rewrite <- (list_fmap_id (_rerank_results query results)) at 2.
    apply Forall_fmap_ext_1, Forall_forall.
    by intros c' (c & -> & _)%elem_of_rerank_results. }
  rewrite Hid. apply sort_desc_fixpoint, rerank_results_sorted.
Qed.

Lemma lower_ascii_idem (c : ascii) :
  PyStr.lower_ascii (PyStr.lower_ascii c) = PyStr.lower_ascii c.
Proof. by destruct c as [[] [] [] [] [] [] [] []]. Qed.

Lemma lower_idem (s : string) : PyStr.lower (PyStr.lower s) = PyStr.lower s.
Proof.
  induction s as [|c s IH]; [done|]. simpl. by rewrite lower_ascii_idem, IH.
Qed.

Lemma word_set_lower (s : string) : word_set (PyStr.lower s) = word_set s.
Proof. unfold word_set. by rewrite lower_idem. Qed.

(** X14.  The re-ranker reads the query only through its set of
    lower-cased words: lower-casing the query changes nothing, and two
    queries with the same word set give the same re-ranked list. *)
Theorem rerank_query_case_insensitive (query : string)
    (results : list Candidate) :
  _rerank_results (PyStr.lower query) results = _rerank_results query results ∧
  ∀ query', word_set query' = word_set query →
            _rerank_results query' results = _rerank_results query results.
Proof.
  split.
  - unfold _rerank_results. by rewrite word_set_lower.
  - intros query' Hq. unfold _rerank_results. by rewrite Hq.
Qed.

Example rerank_upper_case_query :
  _rerank_results "DRAGON  Dragon"
    (HybridRetriever_retrieve Corpus.generate_embedding Corpus.search
       HybridRetriever_init "dragon" 5) =
  _rerank_results "dragon"
    (HybridRetriever_retrieve Corpus.generate_embedding Corpus.search
       HybridRetriever_init "dragon" 5).
Proof. reflexivity. Qed.

(** ** The public operations *)

Lemma rerank_results_ids query (results : list Candidate) :
  doc_id <$> _rerank_results query results ≡ₚ doc_id <$> results.
Proof.
  unfold _rerank_results. rewrite sort_desc_perm.
  by rewrite <- list_fmap_compose.
Qed.

Lemma rerank_results_filtered query b (results : list Candidate) :
  _rerank_results query (book_filter b results) =
  book_filter b (_rerank_results query results).
Proof.
  unfold _rerank_results.
  rewrite <- book_filter_rerank_items, !book_filter_eq.
  by rewrite filter_sort_desc.
Qed.

Lemma book_filter_in_book b (results : list Candidate) :
  Forall (in_book b) (book_filter b results).
Proof.
  apply Forall_forall. intros c Hc.
  by apply list_elem_of_filter in Hc as [? _].
Qed.

Section Operations.
Variable generate_embedding : string → list Q.
Variable search : string → Z → list Hit.

Lemma hybrid_ids_NoDup self query top_k :
  NoDup (doc_id <$>
    HybridRetriever_retrieve generate_embedding search self query top_k).
Proof.
  unfold HybridRetriever_retrieve.
  eapply sublist_NoDup; [apply fused_ids_NoDup|].
  apply fmap_sublist, slice_to_sublist.
Qed.

(** X11.  For top_k ≥ 0 the re-ranking operation returns at most top_k
    candidates, in descending re-ranked score and with pairwise distinct
    identities; each is the re-ranked copy of a candidate of the hybrid
    retrieval for 2 × top_k.  With a non-empty book_id the result is the
    first top_k candidates of that book in the re-ranked pool, so the
    filter is applied before the truncation. *)
Theorem reranking_operation_result (self : RankedRetrievalService)
    (query : string) (book_id : option string) (top_k : Z) :
  (0 <= top_k)%Z →
  let pool :=
    HybridRetriever_retrieve generate_embedding search
      (hybrid_retriever self) query (top_k * 2) in
  ∃ results,
    retrieve_with_reranking generate_embedding search self
      query book_id top_k = Return results ∧
    (Z.of_nat (length results) <= top_k)%Z ∧
    sorted_desc reranked_key results ∧
    NoDup (doc_id <$> results) ∧
    Forall (λ c', ∃ c, c ∈ pool ∧ same_but_reranked c c' ∧
                       reranked_score c' = Some (reranked_formula query c))
      results ∧
    (∀ b, book_id = Some b → b ≠ "" →
          results =
            take (Z.to_nat top_k)
              (book_filter b (_rerank_results query pool)) ∧
          Forall (in_book b) results).
Proof.
  intros Hk pool. eexists. split; [reflexivity|].
  fold pool. split_and!.
  - by apply length_slice_to.
  - eapply sorted_desc_sublist; [apply slice_to_sublist|].
    apply rerank_results_sorted.
  - eapply sublist_NoDup; [|apply fmap_sublist, slice_to_sublist].
    rewrite rerank_results_ids.
    eapply sublist_NoDup; [apply hybrid_ids_NoDup|].
    apply fmap_sublist, scope_to_book_sublist.
  - eapply Forall_sublist_of; [apply slice_to_sublist|].
    apply Forall_forall. intros c' (c & -> & Hc)%elem_of_rerank_results.
    exists c. split_and!.
    + eapply sublist_subseteq; [apply scope_to_book_sublist|exact Hc].
    + apply rerank_item_same.
    + simpl. by rewrite rerank_score_formula.
  - intros b -> Hb. rewrite scope_to_book_supplied by done.
    rewrite rerank_results_filtered, slice_to_nonneg by done.
    split; [done|]. apply Forall_take, book_filter_in_book.
Qed.

(** X12.  An empty-string book_id is no scope: each of the four
    operations answers it as it answers an absent book_id.  With a
    non-empty book_id the semantic, keyword and hybrid operations return
    the candidates of that book among those of the unscoped call, in
    their order. *)
Theorem empty_book_id_is_unscoped (self : RankedRetrievalService)
    (query : string) (top_k : Z) :
  retrieve_by_semantic_similarity generate_embedding search self
    query (Some "") top_k =
  retrieve_by_semantic_similarity generate_embedding search self
    query None top_k ∧
  retrieve_by_keyword_matching search self query (Some "") top_k =
  retrieve_by_keyword_matching search self query None top_k ∧
  retrieve_hybrid generate_embedding search self query (Some "") top_k =
  retrieve_hybrid generate_embedding search self query None top_k ∧
  retrieve_with_reranking generate_embedding search self
    query (Some "") top_k =
  retrieve_with_reranking generate_embedding search self query None top_k ∧
  ∀ b, b ≠ "" →
    (∃ unscoped,
       retrieve_by_semantic_similarity generate_embedding search self
         query None top_k = Return unscoped ∧
       retrieve_by_semantic_similarity generate_embedding search self
         query (Some b) top_k = Return (book_filter b unscoped)) ∧
    (∃ unscoped,
       retrieve_by_keyword_matching search self query None top_k =
         Return unscoped ∧
       retrieve_by_keyword_matching search self query (Some b) top_k =
         Return (book_filter b unscoped)) ∧
    (∃ unscoped,
       retrieve_hybrid generate_embedding search self query None top_k =
         Return unscoped ∧
       retrieve_hybrid generate_embedding search self query (Some b) top_k =
         Return (book_filter b unscoped)).
Proof.
  split_and!; try reflexivity.
  intros b Hb.
  split_and!; eexists; (split; [reflexivity|]).
  - unfold retrieve_by_semantic_similarity.
    by rewrite scope_to_book_supplied.
  - unfold retrieve_by_keyword_matching.
    by rewrite scope_to_book_supplied.
  - unfold retrieve_hybrid. by rewrite scope_to_book_supplied.
Qed.

End Operations.

Lemma reranking_operation_result_witness :
  (0 <= 1)%Z ∧
  ∃ results,
    retrieve_with_reranking Corpus.generate_embedding Corpus.search
      RankedRetrievalService_init "dragon" (Some "A") 1 = Return results ∧
    (Z.of_nat (length results) <= 1)%Z.
Proof.
  assert (Hk : (0 <= 1)%Z) by lia.
  split; [exact Hk|].
  destruct (reranking_operation_result Corpus.generate_embedding
              Corpus.search RankedRetrievalService_init "dragon"
              (Some "A") 1 Hk) as (results & Hret & Hlen & _).
  exists results. split; [exact Hret | exact Hlen].
Defined.

Example scoped_reranking_returns_village :
  match retrieve_with_reranking Corpus.generate_embedding Corpus.search
          RankedRetrievalService_init "dragon" (Some "A") 1 with
  | Return results => doc_id <$> results
  | Raise _ => []
  end = ["2"].
Proof. reflexivity. Qed.

Lemma empty_book_id_is_unscoped_witness :
  "B" ≠ "" ∧
  ∃ unscoped,
    retrieve_hybrid Corpus.generate_embedding Corpus.search
      RankedRetrievalService_init "dragon" None 5 = Return unscoped ∧
    retrieve_hybrid Corpus.generate_embedding Corpus.search
      RankedRetrievalService_init "dragon" (Some "B") 5 =
    Return (book_filter "B" unscoped).
Proof.
  assert (Hb : "B" ≠ "") by discriminate.
  split; [exact Hb|].
  pose proof (empty_book_id_is_unscoped Corpus.generate_embedding
                Corpus.search RankedRetrievalService_init "dragon" 5)
    as (_ & _ & _ & _ & H).
  exact (proj2 (proj2 (H "B" Hb))).
Defined.

(** ** Truncation *)

Lemma sorted_desc_app {A : Type} (key : A → Q) (l1 l2 : list A) x1 x2 :
  sorted_desc key (l1 ++ l2) → x1 ∈ l1 → x2 ∈ l2 → (key x2 <= key x1)%Q.
Proof.
  intros Hs H1 H2.
  by apply (StronglySorted_app_1_elem_of _ l1 l2 x1 x2 Hs).
Qed.

Section Truncation.
Variable generate_embedding : string → list Q.
Variable search : string → Z → list Hit.

(** X17.  For top_k ≥ 0 the hybrid retriever returns the head of the fused
    list: no candidate it leaves out has a higher fused score than a
    candidate it returns. *)
Theorem hybrid_truncation_keeps_best (self : HybridRetriever)
    (query : string) (top_k : Z) :
  (0 <= top_k)%Z →
  let fused :=
    fused_results self
      (SemanticRetriever_retrieve generate_embedding search query (top_k * 2))
      (BM25Retriever_retrieve search query (top_k * 2)) in
  let results :=
    HybridRetriever_retrieve generate_embedding search self query top_k in
  ∃ dropped,
    fused = results ++ dropped ∧
    ∀ c c', c ∈ results → c' ∈ dropped →
            (combined_key c' <= combined_key c)%Q.
Proof.
  intros Hk fused results. exists (drop (Z.to_nat top_k) fused).
  assert (Hres : results = take (Z.to_nat top_k) fused).
  { unfold results, HybridRetriever_retrieve. by apply slice_to_nonneg. }
  rewrite Hres. split; [by rewrite take_drop|].
  intros c c'. apply sorted_desc_app.
  rewrite take_drop. apply fused_results_sorted.
Qed.

End Truncation.

Lemma hybrid_truncation_keeps_best_witness :
  (0 <= 1)%Z ∧
  ∃ dropped,
    fused_results HybridRetriever_init
      (SemanticRetriever_retrieve Corpus.generate_embedding Corpus.search
         "dragon" (1 * 2))
      (BM25Retriever_retrieve Corpus.search "dragon" (1 * 2)) =
    HybridRetriever_retrieve Corpus.generate_embedding Corpus.search
      HybridRetriever_init "dragon" 1 ++ dropped ∧
    ∀ c c',
      c ∈ HybridRetriever_retrieve Corpus.generate_embedding Corpus.search
            HybridRetriever_init "dragon" 1 →
      c' ∈ dropped → (combined_key c' <= combined_key c)%Q.
Proof.
  assert (Hk : (0 <= 1)%Z) by lia.
  split; [exact Hk|].
  exact (hybrid_truncation_keeps_best Corpus.generate_embedding Corpus.search
           HybridRetriever_init "dragon" 1 Hk).
Defined.
